(** * Cognitive physics framework: the simulation core and the prediction engine

    A shallow embedding of [core_interface.py] and [meta_law_synthesis.py].

    Number model.  Python [float] values are idealised as real numbers
    ([R] of the Standard Library): rounding, infinities and NaN are not
    modelled.  [math.tanh] and [math.sqrt] are the real [tanh] and [sqrt].
    Python [int] values are [Z].

    Container model.  A Python [dict] is an association list in insertion
    order with pairwise distinct keys ([Dict.wf]); a Python [list] is a
    [list].  Subscripting a dict with an absent key raises [KeyError]; the
    operations that can raise return [option], [None] standing for the
    exception. *)

From Stdlib Require Import Reals Lra Lia List String ZArith Bool.
Import ListNotations.

Open Scope string_scope.
Open Scope list_scope.
Open Scope R_scope.

(** ** Float comparisons and builtins *)

Module Float.

Definition ltb (x y : R) : bool := if Rlt_dec x y then true else false.
Definition gtb (x y : R) : bool := ltb y x.
Definition leb (x y : R) : bool := if Rle_dec x y then true else false.
Definition geb (x y : R) : bool := leb y x.
Definition eqb (x y : R) : bool := if Req_dec_T x y then true else false.

(** [min(a, b)] and [max(a, b)] of Python keep the first argument unless
    the second one is strictly better. *)
Definition min (a b : R) : R := if ltb b a then b else a.
Definition max (a b : R) : R := if gtb b a then b else a.

End Float.

(** ** The error monad of the operations that can raise *)

Notation "x <- e ;; k" := (match e with Some x => k | None => None end)
  (at level 61, e at next level, right associativity).
Notation "' p <- e ;; k" := (match e with Some p => k | None => None end)
  (at level 61, p pattern, e at next level, right associativity).

(** [for x in l: s = body(s, x)], stopped by the first exception. *)
Fixpoint for_each {A St : Type} (l : list A) (body : St -> A -> option St) (s : St)
  : option St :=
  match l with
  | [] => Some s
  | a :: r => s' <- body s a ;; for_each r body s'
  end.

(** ** Dictionaries *)

Class Key (K : Type) := {
  keqb : K -> K -> bool;
  keqb_spec : forall a b, reflect (a = b) (keqb a b)
}.

#[export] Instance string_Key : Key string :=
  {| keqb := String.eqb; keqb_spec := String.eqb_spec |}.

#[export] Instance pair_Key {A B} `{Key A} `{Key B} : Key (A * B).
Proof.
  refine {| keqb := fun p q => keqb (fst p) (fst q) && keqb (snd p) (snd q) |}.
  intros [a b] [a' b']; simpl.
  destruct (keqb_spec a a'), (keqb_spec b b'); simpl; constructor; congruence.
Defined.

Module Dict.
Section Ops.
Context {K V : Type} `{Key K}.

Definition t := list (K * V).

Definition keys (d : t) : list K := map fst d.
Definition values (d : t) : list V := map snd d.
Definition items (d : t) : list (K * V) := d.

(** [d[k]]: [None] is [KeyError]. *)
Fixpoint getitem (k : K) (d : t) : option V :=
  match d with
  | [] => None
  | (k', v) :: r => if keqb k k' then Some v else getitem k r
  end.

(** [d.get(k, default)] *)
Definition get (k : K) (d : t) (default : V) : V :=
  match getitem k d with Some v => v | None => default end.

(** [k in d] *)
Definition mem (k : K) (d : t) : bool :=
  match getitem k d with Some _ => true | None => false end.

(** [d[k] = v]: an existing key keeps its place, a new one goes last. *)
Fixpoint setitem (k : K) (v : V) (d : t) : t :=
  match d with
  | [] => [(k, v)]
  | (k', v') :: r => if keqb k k' then (k', v) :: r else (k', v') :: setitem k v r
  end.

(** [del d[k]]: [None] is [KeyError]. *)
Fixpoint delitem (k : K) (d : t) : option t :=
  match d with
  | [] => None
  | (k', v') :: r =>
      if keqb k k' then Some r else r' <- delitem k r ;; Some ((k', v') :: r')
  end.

(** The invariant of a dictionary: no key occurs twice. *)
Definition wf (d : t) : Prop := NoDup (keys d).

End Ops.
Arguments t : clear implicits.
Arguments t K V : assert.
End Dict.

(** ** CognitiveNetwork *)

Record Node := { activation : R }.
Record Edge := { weight : R; causal_strength : R }.

Record CognitiveNetwork := {
  nodes : Dict.t string Node;
  edges : Dict.t (string * string) Edge
}.

Definition empty_network : CognitiveNetwork := {| nodes := []; edges := [] |}.

Definition add_node (self : CognitiveNetwork) (node_id : string) (act : R)
  : CognitiveNetwork :=
  {| nodes := Dict.setitem node_id {| activation := act |} (nodes self);
     edges := edges self |}.

Definition add_edge (self : CognitiveNetwork) (src dst : string) (w cs : R)
  : CognitiveNetwork :=
  {| nodes := nodes self;
     edges := Dict.setitem (src, dst) {| weight := w; causal_strength := cs |} (edges self) |}.

(** The inner loop of [propagate]: the weighted input of [node_id]. *)
Definition incoming (self : CognitiveNetwork) (node_id : string) : option R :=
  for_each (Dict.items (edges self))
    (fun incoming '((src, dst), edge) =>
       if String.eqb dst node_id && Dict.mem src (nodes self)
       then n <- Dict.getitem src (nodes self) ;;
            Some (incoming + activation n * weight edge)
       else Some incoming)
    0.

(** The first loop of a step: the dictionary [new_activations]. *)
Definition new_activations (self : CognitiveNetwork) : option (Dict.t string R) :=
  for_each (Dict.keys (nodes self))
    (fun new_activations node_id =>
       incoming <- incoming self node_id ;;
       n <- Dict.getitem node_id (nodes self) ;;
       let current := activation n in
       Some (Dict.setitem node_id (0.9 * current + 0.1 * tanh incoming) new_activations))
    [].

(** The second loop of a step: [self.nodes[node_id]["activation"] = activation]. *)
Definition write_back (ns : Dict.t string Node) (new_activations : Dict.t string R)
  : option (Dict.t string Node) :=
  for_each (Dict.items new_activations)
    (fun ns '(node_id, a) =>
       _ <- Dict.getitem node_id ns ;;
       Some (Dict.setitem node_id {| activation := a |} ns))
    ns.

Definition propagate_step (self : CognitiveNetwork) : option CognitiveNetwork :=
  new_activations <- new_activations self ;;
  nodes' <- write_back (nodes self) new_activations ;;
  Some {| nodes := nodes'; edges := edges self |}.

(** [for _ in range(steps)] *)
Fixpoint propagate_iter (n : nat) (self : CognitiveNetwork) : option CognitiveNetwork :=
  match n with
  | O => Some self
  | Datatypes.S n' => self' <- propagate_step self ;; propagate_iter n' self'
  end.

Definition propagate (self : CognitiveNetwork) (steps : Z) : option CognitiveNetwork :=
  propagate_iter (Z.to_nat steps) self.

(** [degrees[node_id] += 1] on a [defaultdict(int)] *)
Definition bump (node_id : string) (degrees : Dict.t string Z) : Dict.t string Z :=
  Dict.setitem node_id (Dict.get node_id degrees 0%Z + 1)%Z degrees.

Definition incident (node_id : string) (e : string * string) : bool :=
  String.eqb (fst e) node_id || String.eqb (snd e) node_id.

Definition get_degree_distribution (self : CognitiveNetwork) : list Z :=
  let degrees :=
    fold_left
      (fun degrees node_id =>
         fold_left
           (fun degrees e => if incident node_id e then bump node_id degrees else degrees)
           (Dict.keys (edges self)) degrees)
      (Dict.keys (nodes self)) [] in
  Dict.values degrees.

(** [sum(l)] over floats and over ints, [max(l)] over a non-empty list of
    ints, all left to right as Python folds them. *)
Definition fsum (l : list R) : R := fold_left Rplus l 0.
Definition isum (l : list Z) : Z := fold_left Z.add l 0%Z.
Definition imax (l : list Z) : Z :=
  match l with
  | [] => 0%Z
  | x :: r => fold_left (fun m d => if (d >? m)%Z then d else m) r x
  end.

(** The real [sqrt] is total; [math.sqrt] raises only below zero, which a
    variance never is. *)
Definition compute_structural_differentiation (network : CognitiveNetwork) : R :=
  let degrees := get_degree_distribution network in
  match degrees with
  | [] => 0
  | _ :: _ =>
      let len := IZR (Z.of_nat (List.length degrees)) in
      let avg_degree := IZR (isum degrees) / len in
      if Float.eqb avg_degree 0 then 0
      else
        let variance := fsum (map (fun d => (IZR d - avg_degree) ^ 2) degrees) / len in
        let cv := sqrt variance / avg_degree in
        let max_degree := imax degrees in
        let hub_score := Float.min 1 (IZR max_degree / (len * 0.3)) in
        let differentiation := Float.min 1 (cv * 0.5 + hub_score * 0.5) in
        differentiation
  end.

(** ** MemoryModule *)

Record MemoryModule := {
  persistence : R;
  memories : Dict.t string R;
  proto_language : list string
}.

Definition new_memory (p : R) : MemoryModule :=
  {| persistence := p; memories := []; proto_language := [] |}.

Definition store (self : MemoryModule) (key : string) (strength : R) : MemoryModule :=
  {| persistence := persistence self;
     memories := Dict.setitem key strength (memories self);
     proto_language := proto_language self |}.

Definition recall (self : MemoryModule) (key : string) : R :=
  Dict.get key (memories self) 0.

(** The first loop of [decay]: scale every strength in place and collect
    the keys to purge. *)
Definition decay_scan (decay_rate : R) (mems : Dict.t string R)
  : option (Dict.t string R * list string) :=
  for_each (Dict.keys mems)
    (fun '(mems, to_remove) key =>
       v <- Dict.getitem key mems ;;
       let mems := Dict.setitem key (v * (1 - decay_rate * 0.1)) mems in
       v' <- Dict.getitem key mems ;;
       Some (mems, if Float.ltb v' 0.01 then to_remove ++ [key] else to_remove))
    (mems, []).

(** The second loop of [decay]: [del self.memories[key]]. *)
Definition decay_purge (mems : Dict.t string R) (to_remove : list string)
  : option (Dict.t string R) :=
  for_each to_remove (fun mems key => Dict.delitem key mems) mems.

Definition decay (self : MemoryModule) : option MemoryModule :=
  let decay_rate := 1 - persistence self in
  ' (mems, to_remove) <- decay_scan decay_rate (memories self) ;;
  mems' <- decay_purge mems to_remove ;;
  Some {| persistence := persistence self;
          memories := mems';
          proto_language := proto_language self |}.

Definition form_proto_language (self : MemoryModule) (pattern : string) : MemoryModule :=
  if existsb (String.eqb pattern) (proto_language self) then self
  else {| persistence := persistence self;
          memories := memories self;
          proto_language := proto_language self ++ [pattern] |}.

(** ** CausalityEngine *)

Definition Event : Type := string * string * R.
Definition ev_src (e : Event) : string := fst (fst e).
Definition ev_dst (e : Event) : string := snd (fst e).
Definition ev_strength (e : Event) : R := snd e.

Record CausalityEngine := {
  events : list Event;
  current_density : R
}.

Definition new_engine : CausalityEngine := {| events := []; current_density := 0 |}.

(** [l[start:]] with Python's treatment of a negative or too large start. *)
Definition slice_from {A : Type} (start : Z) (l : list A) : list A :=
  let len := Z.of_nat (List.length l) in
  let start' := if (start <? 0)%Z then Z.max (start + len) 0 else Z.min start len in
  skipn (Z.to_nat start') l.

Definition _update_density (self : CausalityEngine) : CausalityEngine :=
  if (Z.of_nat (List.length (events self)) =? 0)%Z
  then {| events := events self; current_density := 0 |}
  else
    let recent := slice_from (-100) (events self) in
    let total_strength := fsum (map ev_strength recent) in
    {| events := events self;
       current_density :=
         Float.min 1 (total_strength / IZR (Z.max (Z.of_nat (List.length recent)) 1)) |}.

Definition register_event (self : CausalityEngine) (src dst : string) (strength : R)
  : CausalityEngine :=
  _update_density
    {| events := events self ++ [(src, dst, strength)];
       current_density := current_density self |}.

(** The list comprehension of [get_causal_chain]. *)
Definition next_nodes (evs : list Event) (current : string) : list string :=
  map ev_dst (filter (fun e => String.eqb (ev_src e) current) evs).

(** The loop of [get_causal_chain]; [fuel] is what is left of
    [range(max_depth)]. *)
Fixpoint causal_chain_loop (fuel : nat) (evs : list Event) (current : string)
  (chain : list string) : list string :=
  match fuel with
  | O => chain
  | Datatypes.S fuel' =>
      match next_nodes evs current with
      | [] => chain
      | d :: ds =>
          let current := last (d :: ds) d in
          causal_chain_loop fuel' evs current (chain ++ [current])
      end
  end.

Definition get_causal_chain (self : CausalityEngine) (start : string) (max_depth : Z)
  : list string :=
  causal_chain_loop (Z.to_nat max_depth) (events self) start [start].

(** ** MetaLawSynthesis *)

Inductive UniversalityClass :=
| GRAMMAR_STRUCTURAL
| FAST_PROPAGATION
| SLOW_MEMORY
| DENSE_DYNAMICAL.

Definition value (c : UniversalityClass) : string :=
  match c with
  | GRAMMAR_STRUCTURAL => "grammar_structural"
  | FAST_PROPAGATION => "fast_propagation"
  | SLOW_MEMORY => "slow_memory"
  | DENSE_DYNAMICAL => "dense_dynamical"
  end.

Module State.
Record CognitiveState := {
  S : R;
  D : R;
  M : R;
  capacity : R;
  phi : Z;
  universality_class : string;
  threshold : R;
  active_laws : list string
}.
End State.
Abbreviation CognitiveState := State.CognitiveState.

Definition CLASS_THRESHOLDS (c : UniversalityClass) : R :=
  match c with
  | GRAMMAR_STRUCTURAL => 0.003
  | FAST_PROPAGATION => 0.005
  | SLOW_MEMORY => 0.007
  | DENSE_DYNAMICAL => 0.010
  end.

Record Law := {
  name : string;
  description : string;
  condition : R -> R -> R -> bool
}.

Definition LAWS : list (string * Law) := [
  ("structural_morality",
   {| name := "Structural Morality";
      description := "Morality emerges from network topology, not external rules";
      condition := fun s d m => Float.gtb s 0.3 && Float.gtb d 0.2 |});
  ("observation_independence",
   {| name := "Observation Independence";
      description := "Emergence is observer-independent";
      condition := fun s d m => Float.gtb (s * d * m) 0.001 |});
  ("causal_time",
   {| name := "Causal Time";
      description := "Time is causal density, not clock ticks";
      condition := fun s d m => Float.gtb d 0.15 |});
  ("memory_persistence",
   {| name := "Memory Persistence Law";
      description := "Memory enables pattern formation and cognition";
      condition := fun s d m => Float.gtb m 0.02 |});
  ("structural_differentiation",
   {| name := "Structural Differentiation";
      description := "Hubs, bridges, and clusters enable efficient cognition";
      condition := fun s d m => Float.gtb s 0.4 |})
].

Record MetaLawSynthesis := { predictions : list CognitiveState }.

Definition new_synthesis : MetaLawSynthesis := {| predictions := [] |}.

Definition classify_universality_class (S D M : R) : UniversalityClass :=
  if Float.gtb S 0.5 && Float.ltb D 0.5 then GRAMMAR_STRUCTURAL
  else if Float.gtb S 0.6 && Float.ltb M 0.05 then FAST_PROPAGATION
  else if Float.gtb M 0.08 then SLOW_MEMORY
  else if Float.ltb S 0.3 && Float.gtb D 0.5 then DENSE_DYNAMICAL
  else GRAMMAR_STRUCTURAL.

Definition compute_capacity (S D M : R) : R := S * D * M.

Definition get_active_laws (S D M : R) : list string :=
  fold_left
    (fun active '(law_id, law) =>
       if condition law S D M then active ++ [name law] else active)
    LAWS [].

(** The [params] dictionary of [predict], one optional entry per key the
    function reads. *)
Record Params := {
  p_S : option R;
  p_structural_differentiation : option R;
  p_D : option R;
  p_causal_density : option R;
  p_M : option R;
  p_memory_persistence : option R;
  p_network : option CognitiveNetwork
}.

(** [params.get(key, params.get(alias, default))] *)
Definition params_get (key alias : option R) (default : R) : R :=
  match key with
  | Some x => x
  | None => match alias with Some y => y | None => default end
  end.

Definition predict (self : MetaLawSynthesis) (params : Params)
  : CognitiveState * MetaLawSynthesis :=
  let S := params_get (p_S params) (p_structural_differentiation params) 0.5 in
  let D := params_get (p_D params) (p_causal_density params) 0.3 in
  let M := params_get (p_M params) (p_memory_persistence params) 0.05 in
  let S := match p_network params with
           | Some network => compute_structural_differentiation network
           | None => S
           end in
  let uni_class := classify_universality_class S D M in
  let threshold := CLASS_THRESHOLDS uni_class in
  let capacity := compute_capacity S D M in
  let phi := if Float.geb capacity threshold then 1%Z else 0%Z in
  let active_laws := get_active_laws S D M in
  let state :=
    {| State.S := S; State.D := D; State.M := M;
       State.capacity := capacity;
       State.phi := phi;
       State.universality_class := value uni_class;
       State.threshold := threshold;
       State.active_laws := active_laws |} in
  (state, {| predictions := predictions self ++ [state] |}).

(** The call [predict({"S": S, "D": D, "M": M})]. *)
Definition params_SDM (S D M : R) : Params :=
  {| p_S := Some S; p_structural_differentiation := None;
     p_D := Some D; p_causal_density := None;
     p_M := Some M; p_memory_persistence := None;
     p_network := None |}.

Definition predict_from_network (self : MetaLawSynthesis) (network : CognitiveNetwork)
  (memory : MemoryModule) (causality : CausalityEngine)
  : CognitiveState * MetaLawSynthesis :=
  let S := compute_structural_differentiation network in
  let D := current_density causality in
  let M := persistence memory in
  predict self (params_SDM S D M).

(** The tables of the specification, by the names it uses. *)



(** [subseq l l']: [l] is [l'] with some elements left out, order kept. *)
Inductive subseq {A : Type} : list A -> list A -> Prop :=
| subseq_nil : subseq [] []
| subseq_skip : forall x l l', subseq l l' -> subseq l (x :: l')
| subseq_keep : forall x l l', subseq l l' -> subseq (x :: l) (x :: l').

(** The sum of a finite family of reals. *)
Definition Rsum (l : list R) : R := fold_right Rplus 0 l.

(** Propagation as the specification words it: [spec_incoming] sums
    source activation times edge weight over the edges into [node_id]
    whose source is a node, and [spec_step] gives every node its new
    activation from the one network it is applied to. *)
Definition source_activation (self : CognitiveNetwork) (src : string) : R :=
  activation (Dict.get src (nodes self) {| activation := 0 |}).

Definition feeds (self : CognitiveNetwork) (node_id : string)
  (it : (string * string) * Edge) : bool :=
  String.eqb (snd (fst it)) node_id && Dict.mem (fst (fst it)) (nodes self).

Definition spec_incoming (self : CognitiveNetwork) (node_id : string) : R :=
  Rsum (map (fun it => source_activation self (fst (fst it)) * weight (snd it))
            (filter (feeds self node_id) (edges self))).

Definition spec_activation (self : CognitiveNetwork) (node_id : string) (n : Node) : Node :=
  {| activation := 0.9 * activation n + 0.1 * tanh (spec_incoming self node_id) |}.

Definition spec_step (self : CognitiveNetwork) : CognitiveNetwork :=
  {| nodes := map (fun it => (fst it, spec_activation self (fst it) (snd it))) (nodes self);
     edges := edges self |}.


(** A two-node network with one edge, for concrete runs. *)
Definition demo_network : CognitiveNetwork :=
  add_edge (add_node (add_node empty_network "a" 1) "b" 0) "a" "b" 0.5 0.5.

(** Degrees as the specification words them: an edge counts once for
    each endpoint position that is the node. *)
Definition spec_endpoint_count (node_id : string) (es : list (string * string)) : Z :=
  fold_right Z.add 0%Z
    (map (fun e => ((if String.eqb (fst e) node_id then 1 else 0) +
                    (if String.eqb (snd e) node_id then 1 else 0))%Z) es).

Definition spec_degree_distribution (self : CognitiveNetwork) : list Z :=
  filter (fun c => (0 <? c)%Z)
    (map (fun node_id => spec_endpoint_count node_id (Dict.keys (edges self)))
         (Dict.keys (nodes self))).

(** Degrees with every incident edge counted once for the node. *)
Definition incident_count (node_id : string) (es : list (string * string)) : Z :=
  Z.of_nat (List.length (filter (incident node_id) es)).

Definition incident_degree_distribution (self : CognitiveNetwork) : list Z :=
  filter (fun c => (0 <? c)%Z)
    (map (fun node_id => incident_count node_id (Dict.keys (edges self)))
         (Dict.keys (nodes self))).

(** The entry of a node in [degrees]: none while its count is zero. *)
Definition degree_entry (node_id : string) (c : Z) : Dict.t string Z :=
  if (0 <? c)%Z then [(node_id, c)] else [].

Definition no_self_loop (self : CognitiveNetwork) : Prop :=
  forall e, In e (Dict.keys (edges self)) -> fst e <> snd e.

(** One node with an edge to itself. *)
Definition self_loop_network : CognitiveNetwork :=
  add_edge (add_node empty_network "a" 0) "a" "a" 0.5 0.5.

(** Decay as the specification words it: every strength is multiplied by
    [1 - (1 - persistence) * 0.1], then the entries below 0.01 go. *)
Definition decay_factor (p : R) : R := 1 - (1 - p) * 0.1.

Definition scale_entry (p : R) (it : string * R) : string * R :=
  (fst it, snd it * decay_factor p).

Definition weak (it : string * R) : bool := Float.ltb (snd it) 0.01.

Definition spec_decay (self : MemoryModule) : MemoryModule :=
  {| persistence := persistence self;
     memories := filter (fun it => negb (weak it)) (map (scale_entry (persistence self)) (memories self));
     proto_language := proto_language self |}.


(** A memory with one strong and one weak trace. *)
Definition demo_memory : MemoryModule :=
  store (store (new_memory 0.05) "x" 1) "y" 0.01.

(** The [n] most recently registered events, oldest first. *)
Definition most_recent {A : Type} (n : nat) (l : list A) : list A :=
  rev (firstn n (rev l)).

(** The density of the specification over an event log: zero on the empty
    log, else the capped mean strength of the trailing window. *)
Definition spec_density (evs : list Event) : R :=
  let n := Nat.min (List.length evs) 100 in
  match evs with
  | [] => 0
  | _ :: _ => Rmin 1 (Rsum (map ev_strength (most_recent n evs)) / INR n)
  end.

(** A sequence of [register_event] calls. *)
Definition register_all (self : CausalityEngine) (evs : list Event) : CausalityEngine :=
  fold_left (fun self e => register_event self (ev_src e) (ev_dst e) (ev_strength e))
            evs self.

(** The walk of the specification.  [last_outgoing evs current next]: the
    event of greatest index whose source is [current] leads to [next]. *)
Definition last_outgoing (evs : list Event) (current next : string) : Prop :=
  exists i s,
    nth_error evs i = Some (current, next, s) /\
    forall j e, (i < j)%nat -> nth_error evs j = Some e -> ev_src e <> current.

Definition no_outgoing (evs : list Event) (current : string) : Prop :=
  forall e, In e evs -> ev_src e <> current.

(** [causal_walk evs n current rest]: [rest] is what a walk of at most [n]
    hops from [current] visits after [current]. *)
Inductive causal_walk (evs : list Event) : nat -> string -> list string -> Prop :=
| walk_exhausted : forall current, causal_walk evs 0 current []
| walk_stuck : forall n current, no_outgoing evs current -> causal_walk evs n current []
| walk_hop : forall n current next rest,
    last_outgoing evs current next ->
    causal_walk evs n next rest ->
    causal_walk evs (Datatypes.S n) current (next :: rest).

(** An event log with a cycle a -> b -> a and a superseded edge a -> c. *)
Definition demo_events : list Event :=
  [("a", "c", 0.5); ("a", "b", 0.25); ("b", "a", 1)].

(** The hub network of the test suite: ten nodes, [node_0] linked to all
    the others. *)
Definition hub_network : CognitiveNetwork :=
  let ids := ["node_0"; "node_1"; "node_2"; "node_3"; "node_4";
              "node_5"; "node_6"; "node_7"; "node_8"; "node_9"] in
  let with_nodes := fold_left (fun net id => add_node net id 0) ids empty_network in
  fold_left (fun net id => add_edge net "node_0" id 0.5 0.5) (tl ids) with_nodes.


(** ** EmergenceDetector *)

(** An emitted record [{"type": ..., "strength": ...}]. *)
Module Emergence.
Record t := { type : string; strength : R }.
End Emergence.

(** A history entry [{"emergences": ..., "count": ...}]. *)
Record Detection := { emergences : list Emergence.t; count : Z }.

Record EmergenceDetector := { detection_history : list Detection }.

Definition new_detector : EmergenceDetector := {| detection_history := [] |}.

Definition detect (self : EmergenceDetector) (network : CognitiveNetwork)
  (memory : MemoryModule) (causality : CausalityEngine)
  : list Emergence.t * EmergenceDetector :=
  let emergences := [] in
  let degrees := get_degree_distribution network in
  let emergences :=
    match degrees with
    | [] => emergences
    | _ :: _ =>
        let max_degree := imax degrees in
        let avg_degree := IZR (isum degrees) / IZR (Z.of_nat (List.length degrees)) in
        if Float.gtb (IZR max_degree) (avg_degree * 2)
        then emergences ++
             [{| Emergence.type := "structural_hub";
                 Emergence.strength :=
                   IZR max_degree / IZR (Z.of_nat (List.length degrees)) |}]
        else emergences
    end in
  let emergences :=
    if Float.gtb (current_density causality) 0.2
    then emergences ++
         [{| Emergence.type := "causal_coherence";
             Emergence.strength := current_density causality |}]
    else emergences in
  let emergences :=
    if (Z.of_nat (List.length (memories memory)) >? 5)%Z
    then emergences ++
         [{| Emergence.type := "memory_persistence";
             Emergence.strength := IZR (Z.of_nat (List.length (memories memory))) / 10 |}]
    else emergences in
  let emergences :=
    if (Z.of_nat (List.length (proto_language memory)) >? 0)%Z
    then emergences ++
         [{| Emergence.type := "proto_language";
             Emergence.strength :=
               IZR (Z.of_nat (List.length (proto_language memory))) / 5 |}]
    else emergences in
  (emergences,
   {| detection_history :=
        detection_history self ++
        [{| emergences := emergences; count := Z.of_nat (List.length emergences) |}] |}).

(** ** MetaLawSynthesis: batches and the summary *)

(** [[self.predict(params) for params in param_list]] *)
Fixpoint batch_predict (self : MetaLawSynthesis) (param_list : list Params)
  : list CognitiveState * MetaLawSynthesis :=
  match param_list with
  | [] => ([], self)
  | params :: rest =>
      let (state, self') := predict self params in
      let (states, self'') := batch_predict self' rest in
      (state :: states, self'')
  end.

(** The dictionary of [get_summary]; [cognitive_rate] is [None] when the
    key is left out. *)
Record Summary := {
  total : Z;
  cognitive : Z;
  non_cognitive : Z;
  cognitive_rate : option R
}.

Definition get_summary (self : MetaLawSynthesis) : Summary :=
  match predictions self with
  | [] => {| total := 0; cognitive := 0; non_cognitive := 0; cognitive_rate := None |}
  | _ :: _ =>
      let cognitive :=
        isum (map (fun _ => 1%Z)
                  (filter (fun p => (State.phi p =? 1)%Z) (predictions self))) in
      let len := Z.of_nat (List.length (predictions self)) in
      {| total := len;
         cognitive := cognitive;
         non_cognitive := (len - cognitive)%Z;
         cognitive_rate := Some (IZR cognitive / IZR len) |}
  end.

(** A node fed only by an edge whose source is not a node. *)
Definition dangling_network : CognitiveNetwork :=
  add_edge (add_node empty_network "a" 1) "ghost" "a" 0.5 0.5.

(** The four types [detect] can emit, in the order of its checks. *)
Definition emergence_types : list string :=
  ["structural_hub"; "causal_coherence"; "memory_persistence"; "proto_language"].

(** The pairs of neighbours of a list, in order. *)
Definition adjacent {A : Type} (l : list A) : list (A * A) := combine l (tl l).

(** * Properties *)

(** ** Float comparisons *)

Module FloatFacts.
Import Float.

Lemma ltb_true x y : ltb x y = true <-> x < y.
Proof. unfold ltb. destruct (Rlt_dec x y); split; intros; try discriminate; tauto. Qed.

Lemma ltb_false x y : ltb x y = false <-> y <= x.
Proof.
  unfold ltb. destruct (Rlt_dec x y); split; intros; try discriminate; try lra; auto.
Qed.

Lemma gtb_true x y : gtb x y = true <-> x > y.
Proof. unfold gtb. rewrite ltb_true. unfold Rgt. tauto. Qed.

Lemma gtb_false x y : gtb x y = false <-> x <= y.
Proof. unfold gtb. apply ltb_false. Qed.

Lemma leb_true x y : leb x y = true <-> x <= y.
Proof. unfold leb. destruct (Rle_dec x y); split; intros; try discriminate; tauto. Qed.

Lemma leb_false x y : leb x y = false <-> y < x.
Proof.
  unfold leb. destruct (Rle_dec x y); split; intros; try discriminate; try lra; auto.
Qed.

Lemma geb_true x y : geb x y = true <-> x >= y.
Proof. unfold geb. rewrite leb_true. split; intros; lra. Qed.

Lemma geb_false x y : geb x y = false <-> x < y.
Proof. unfold geb. apply leb_false. Qed.

Lemma eqb_true x y : eqb x y = true <-> x = y.
Proof. unfold eqb. destruct (Req_dec_T x y); split; intros; try discriminate; tauto. Qed.

Lemma min_Rmin a b : min a b = Rmin a b.
Proof.
  unfold min, Rmin. destruct (ltb b a) eqn:E.
  - apply ltb_true in E. destruct (Rle_dec a b); lra.
  - apply ltb_false in E. destruct (Rle_dec a b); lra.
Qed.

End FloatFacts.

(** Splits on every float comparison of the goal and records its meaning. *)
Ltac float_cases :=
  repeat match goal with
  | |- context [Float.gtb ?a ?b] =>
      let E := fresh "E" in
      destruct (Float.gtb a b) eqn:E;
      [ apply FloatFacts.gtb_true in E | apply FloatFacts.gtb_false in E ]
  | |- context [Float.ltb ?a ?b] =>
      let E := fresh "E" in
      destruct (Float.ltb a b) eqn:E;
      [ apply FloatFacts.ltb_true in E | apply FloatFacts.ltb_false in E ]
  | |- context [Float.geb ?a ?b] =>
      let E := fresh "E" in
      destruct (Float.geb a b) eqn:E;
      [ apply FloatFacts.geb_true in E | apply FloatFacts.geb_false in E ]
  | |- context [Float.leb ?a ?b] =>
      let E := fresh "E" in
      destruct (Float.leb a b) eqn:E;
      [ apply FloatFacts.leb_true in E | apply FloatFacts.leb_false in E ]
  end.

(** ** The prediction engine *)

Lemma value_injective (c c' : UniversalityClass) : value c = value c' -> c = c'.
Proof. destruct c, c'; simpl; intros E; try reflexivity; discriminate E. Qed.


(** What [predict] returns for any [params]: the record is computed from
    the three numbers it stores, and it is appended to the history. *)
Lemma predict_any (self : MetaLawSynthesis) (params : Params) :
  let st := fst (predict self params) in
  State.capacity st = State.S st * State.D st * State.M st /\
  State.universality_class st =
    value (classify_universality_class (State.S st) (State.D st) (State.M st)) /\
  State.threshold st =
    CLASS_THRESHOLDS (classify_universality_class (State.S st) (State.D st) (State.M st)) /\
  State.phi st = (if Float.geb (State.capacity st) (State.threshold st) then 1 else 0)%Z /\
  State.active_laws st = get_active_laws (State.S st) (State.D st) (State.M st) /\
  predictions (snd (predict self params)) = predictions self ++ [st].
Proof. simpl. repeat split. Qed.


(** C2: [classify_universality_class] returns the class of the first rule
    of the ordered chain that matches, GRAMMAR_STRUCTURAL when none does;
    (0.8,0.4,0.03) is grammar_structural and (0.2,0.8,0.03) is
    dense_dynamical. *)
Theorem classify_first_match (S D M : R) :
  let rule1 := S > 0.5 /\ D < 0.5 in
  let rule2 := S > 0.6 /\ M < 0.05 in
  let rule3 := M > 0.08 in
  let rule4 := S < 0.3 /\ D > 0.5 in
  let cls := classify_universality_class S D M in
  (rule1 -> cls = GRAMMAR_STRUCTURAL) /\
  (~ rule1 -> rule2 -> cls = FAST_PROPAGATION) /\
  (~ rule1 -> ~ rule2 -> rule3 -> cls = SLOW_MEMORY) /\
  (~ rule1 -> ~ rule2 -> ~ rule3 -> rule4 -> cls = DENSE_DYNAMICAL) /\
  (~ rule1 -> ~ rule2 -> ~ rule3 -> ~ rule4 -> cls = GRAMMAR_STRUCTURAL) /\
  value (classify_universality_class 0.8 0.4 0.03) = "grammar_structural" /\
  value (classify_universality_class 0.2 0.8 0.03) = "dense_dynamical".
Proof.
  cbv zeta. unfold classify_universality_class.
  repeat split; intros; float_cases; simpl; try reflexivity; exfalso; lra.
Qed.

Lemma get_active_laws_unfold (S D M : R) :
  get_active_laws S D M =
    (if Float.gtb S 0.3 && Float.gtb D 0.2 then ["Structural Morality"] else []) ++
    (if Float.gtb (S * D * M) 0.001 then ["Observation Independence"] else []) ++
    (if Float.gtb D 0.15 then ["Causal Time"] else []) ++
    (if Float.gtb M 0.02 then ["Memory Persistence Law"] else []) ++
    (if Float.gtb S 0.4 then ["Structural Differentiation"] else []).
Proof.
  unfold get_active_laws. simpl.
  destruct (Float.gtb S 0.3 && Float.gtb D 0.2), (Float.gtb (S * D * M) 0.001),
    (Float.gtb D 0.15), (Float.gtb M 0.02), (Float.gtb S 0.4); reflexivity.
Qed.


(** ** Dictionaries *)

Module DictFacts.
Section Facts.
Context {K V : Type} `{Key K}.

Lemma keqb_refl (k : K) : keqb k k = true.
Proof. destruct (keqb_spec k k); congruence. Qed.

Lemma keqb_neq (k k' : K) : k <> k' -> keqb k k' = false.
Proof. destruct (keqb_spec k k'); congruence. Qed.

Lemma keys_app (d d' : Dict.t K V) : Dict.keys (d ++ d') = Dict.keys d ++ Dict.keys d'.
Proof. apply map_app. Qed.

Lemma getitem_absent (k : K) (d : Dict.t K V) :
  ~ In k (Dict.keys d) -> Dict.getitem k d = None.
Proof.
  induction d as [|[k' v] d IH]; simpl; intros Hn; [reflexivity|].
  rewrite keqb_neq by (intros ->; apply Hn; now left).
  apply IH. intros Hin. apply Hn. now right.
Qed.

Lemma getitem_present (k : K) (d : Dict.t K V) :
  In k (Dict.keys d) -> exists v, Dict.getitem k d = Some v.
Proof.
  induction d as [|[k' v] d IH]; simpl; intros Hin; [contradiction|].
  destruct (keqb_spec k k') as [->|Hne]; [eauto|].
  destruct Hin as [->|Hin]; [contradiction|auto].
Qed.

Lemma getitem_Some_In (k : K) (v : V) (d : Dict.t K V) :
  Dict.getitem k d = Some v -> In (k, v) d.
Proof.
  induction d as [|[k' v'] d IH]; simpl; [discriminate|].
  destruct (keqb_spec k k') as [->|Hne].
  - intros [= ->]. now left.
  - intros E. right. auto.
Qed.

(** In a well-formed dictionary an entry is what its key looks up. *)
Lemma In_getitem (k : K) (v : V) (d : Dict.t K V) :
  Dict.wf d -> In (k, v) d -> Dict.getitem k d = Some v.
Proof.
  unfold Dict.wf. induction d as [|[k' v'] d IH]; simpl; intros Hwf Hin; [contradiction|].
  inversion Hwf as [|? ? Hn Hwf']; subst.
  destruct Hin as [[= -> ->]|Hin].
  - now rewrite keqb_refl.
  - rewrite keqb_neq; [auto|].
    intros ->. apply Hn. change k' with (fst (k', v)). now apply in_map.
Qed.

Lemma getitem_here (k : K) (v : V) (pre post : Dict.t K V) :
  ~ In k (Dict.keys pre) -> Dict.getitem k (pre ++ (k, v) :: post) = Some v.
Proof.
  induction pre as [|[k' v'] pre IH]; simpl; intros Hn.
  - now rewrite keqb_refl.
  - rewrite keqb_neq by (intros ->; apply Hn; now left).
    apply IH. intros Hin. apply Hn. now right.
Qed.

Lemma setitem_absent (k : K) (v : V) (d : Dict.t K V) :
  ~ In k (Dict.keys d) -> Dict.setitem k v d = d ++ [(k, v)].
Proof.
  induction d as [|[k' v'] d IH]; simpl; intros Hn; [reflexivity|].
  rewrite keqb_neq by (intros ->; apply Hn; now left).
  f_equal. apply IH. intros Hin. apply Hn. now right.
Qed.

Lemma setitem_here (k : K) (v w : V) (pre post : Dict.t K V) :
  ~ In k (Dict.keys pre) ->
  Dict.setitem k w (pre ++ (k, v) :: post) = pre ++ (k, w) :: post.
Proof.
  induction pre as [|[k' v'] pre IH]; simpl; intros Hn.
  - now rewrite keqb_refl.
  - rewrite keqb_neq by (intros ->; apply Hn; now left).
    f_equal. apply IH. intros Hin. apply Hn. now right.
Qed.

Lemma delitem_here (k : K) (v : V) (pre post : Dict.t K V) :
  ~ In k (Dict.keys pre) ->
  Dict.delitem k (pre ++ (k, v) :: post) = Some (pre ++ post).
Proof.
  induction pre as [|[k' v'] pre IH]; simpl; intros Hn.
  - now rewrite keqb_refl.
  - rewrite keqb_neq by (intros ->; apply Hn; now left).
    rewrite IH; [reflexivity|]. intros Hin. apply Hn. now right.
Qed.

Lemma keys_setitem_present (k : K) (v : V) (d : Dict.t K V) :
  In k (Dict.keys d) -> Dict.keys (Dict.setitem k v d) = Dict.keys d.
Proof.
  induction d as [|[k' v'] d IH]; simpl; intros Hin; [contradiction|].
  destruct (keqb_spec k k') as [->|Hne]; simpl; [reflexivity|].
  f_equal. apply IH. destruct Hin as [->|Hin]; [contradiction|assumption].
Qed.

(** [d[k] = v] keeps a dictionary well formed. *)
Lemma wf_setitem (k : K) (v : V) (d : Dict.t K V) :
  Dict.wf d -> Dict.wf (Dict.setitem k v d).
Proof.
  unfold Dict.wf. intros Hwf.
  destruct (in_dec (fun a b => reflect_dec _ _ (keqb_spec a b)) k (Dict.keys d)) as [Hin|Hn].
  - now rewrite keys_setitem_present.
  - rewrite setitem_absent, keys_app by assumption. simpl.
    apply NoDup_app; [assumption|repeat constructor; simpl; tauto|].
    intros x Hx [<-|[]]. contradiction.
Qed.

End Facts.
End DictFacts.

(** ** Well-formed dictionaries from the API *)

Lemma wf_add_node (self : CognitiveNetwork) (node_id : string) (act : R) :
  Dict.wf (nodes self) -> Dict.wf (nodes (add_node self node_id act)).
Proof. intros Hwf. simpl. now apply DictFacts.wf_setitem. Qed.

Lemma wf_add_edge (self : CognitiveNetwork) (src dst : string) (w cs : R) :
  Dict.wf (nodes self) -> Dict.wf (edges self) ->
  Dict.wf (nodes (add_edge self src dst w cs)) /\
  Dict.wf (edges (add_edge self src dst w cs)).
Proof. intros Hn He. simpl. split; [exact Hn|now apply DictFacts.wf_setitem]. Qed.

Lemma wf_store (self : MemoryModule) (key : string) (strength : R) :
  Dict.wf (memories self) -> Dict.wf (memories (store self key strength)).
Proof. intros Hwf. simpl. now apply DictFacts.wf_setitem. Qed.

(** ** Propagation *)

Lemma fsum_Rsum (l : list R) : fsum l = Rsum l.
Proof.
  unfold fsum. enough (E : forall a, fold_left Rplus l a = a + Rsum l) by (rewrite E; lra).
  induction l as [|x l IH]; simpl; intros a; [lra|]. rewrite IH. lra.
Qed.

(** The inner loop never raises and computes the sum of the specification. *)
Lemma incoming_spec (self : CognitiveNetwork) (node_id : string) :
  incoming self node_id = Some (spec_incoming self node_id).
Proof.
  unfold incoming, spec_incoming, Dict.items.
  enough (E : forall es acc,
    for_each es
      (fun incoming '((src, dst), edge) =>
         if String.eqb dst node_id && Dict.mem src (nodes self)
         then n <- Dict.getitem src (nodes self) ;;
              Some (incoming + activation n * weight edge)
         else Some incoming) acc =
    Some (acc + Rsum (map (fun it => source_activation self (fst (fst it)) * weight (snd it))
                          (filter (feeds self node_id) es)))).
  { rewrite E. f_equal. lra. }
  induction es as [|[[src dst] edge] es IH]; simpl; intros acc.
  - f_equal. lra.
  - unfold feeds at 1. simpl.
    destruct (String.eqb dst node_id && Dict.mem src (nodes self)) eqn:C.
    + apply andb_prop in C. destruct C as [_ C].
      unfold Dict.mem in C.
      destruct (Dict.getitem src (nodes self)) as [n|] eqn:G; [|discriminate].
      assert (Hs : source_activation self src = activation n)
        by (unfold source_activation, Dict.get; now rewrite G).
      rewrite IH. simpl. rewrite Hs. f_equal. lra.
    + apply IH.
Qed.

(** The first loop builds, in node order, the new activation of every
    node from the network as it is before the step. *)
Lemma new_activations_spec (self : CognitiveNetwork) :
  Dict.wf (nodes self) ->
  new_activations self =
    Some (map (fun it => (fst it, activation (spec_activation self (fst it) (snd it))))
              (nodes self)).
Proof.
  intros Hwf. unfold new_activations.
  enough (E : forall todo pre,
    nodes self = pre ++ todo ->
    for_each (Dict.keys todo)
      (fun new_activations node_id =>
         incoming <- incoming self node_id ;;
         n <- Dict.getitem node_id (nodes self) ;;
         let current := activation n in
         Some (Dict.setitem node_id (0.9 * current + 0.1 * tanh incoming) new_activations))
      (map (fun it => (fst it, activation (spec_activation self (fst it) (snd it)))) pre) =
    Some (map (fun it => (fst it, activation (spec_activation self (fst it) (snd it))))
              (pre ++ todo))).
  { specialize (E (nodes self) [] eq_refl). exact E. }
  induction todo as [|[k n] todo IH]; intros pre Hsplit; simpl.
  - now rewrite app_nil_r.
  - assert (Hk : ~ In k (Dict.keys pre)).
    { unfold Dict.wf in Hwf. rewrite Hsplit, DictFacts.keys_app in Hwf. simpl in Hwf.
      apply NoDup_remove_2 in Hwf. intros Hin. apply Hwf. apply in_or_app. now left. }
    rewrite incoming_spec. rewrite Hsplit at 1.
    rewrite DictFacts.getitem_here by assumption.
    rewrite DictFacts.setitem_absent.
    2:{ unfold Dict.keys. rewrite map_map. simpl. exact Hk. }
    specialize (IH (pre ++ [(k, n)])).
    rewrite <- app_assoc in IH. simpl in IH. specialize (IH Hsplit).
    rewrite map_app in IH. simpl in IH. exact IH.
Qed.

(** The second loop finds every key it writes and replaces each node's
    activation in place. *)
Lemma write_back_spec (f : string -> Node -> R) (ns : Dict.t string Node) :
  Dict.wf ns ->
  write_back ns (map (fun it => (fst it, f (fst it) (snd it))) ns) =
    Some (map (fun it => (fst it, {| activation := f (fst it) (snd it) |})) ns).
Proof.
  unfold write_back, Dict.items.
  enough (E : forall todo done,
    Dict.wf (done ++ todo) ->
    for_each (map (fun it => (fst it, f (fst it) (snd it))) todo)
      (fun ns '(node_id, a) =>
         _ <- Dict.getitem node_id ns ;;
         Some (Dict.setitem node_id {| activation := a |} ns))
      (done ++ todo) =
    Some (done ++ map (fun it => (fst it, {| activation := f (fst it) (snd it) |})) todo)).
  { intros Hwf. exact (E ns [] Hwf). }
  induction todo as [|[k n] todo IH]; intros done Hwf; simpl; [reflexivity|].
  assert (Hk : ~ In k (Dict.keys done)).
  { unfold Dict.wf in Hwf. rewrite DictFacts.keys_app in Hwf. simpl in Hwf.
    apply NoDup_remove_2 in Hwf. intros Hin. apply Hwf. apply in_or_app. now left. }
  rewrite DictFacts.getitem_here by assumption.
  rewrite DictFacts.setitem_here by assumption.
  specialize (IH (done ++ [(k, {| activation := f k n |})])).
  rewrite <- !app_assoc in IH. simpl in IH. apply IH.
  unfold Dict.wf in *. rewrite DictFacts.keys_app in *. exact Hwf.
Qed.

Lemma keys_spec_step (self : CognitiveNetwork) :
  Dict.keys (nodes (spec_step self)) = Dict.keys (nodes self).
Proof. unfold spec_step, Dict.keys. simpl. rewrite map_map. reflexivity. Qed.

Lemma wf_spec_step (self : CognitiveNetwork) :
  Dict.wf (nodes self) -> Dict.wf (nodes (spec_step self)).
Proof. unfold Dict.wf. now rewrite keys_spec_step. Qed.

(** One step of the code is the simultaneous update of the specification. *)
Lemma propagate_step_spec (self : CognitiveNetwork) :
  Dict.wf (nodes self) -> propagate_step self = Some (spec_step self).
Proof.
  intros Hwf. unfold propagate_step.
  rewrite new_activations_spec by assumption.
  rewrite (write_back_spec (fun k n => activation (spec_activation self k n))) by assumption.
  reflexivity.
Qed.

Lemma iter_shift {A : Type} (f : A -> A) (n : nat) (x : A) :
  Nat.iter n f (f x) = f (Nat.iter n f x).
Proof. induction n; simpl; [reflexivity|]. now rewrite IHn. Qed.

Lemma propagate_iter_spec (n : nat) (self : CognitiveNetwork) :
  Dict.wf (nodes self) -> propagate_iter n self = Some (Nat.iter n spec_step self).
Proof.
  revert self. induction n as [|n IH]; intros self Hwf; simpl; [reflexivity|].
  rewrite propagate_step_spec by assumption.
  rewrite IH by now apply wf_spec_step.
  now rewrite iter_shift.
Qed.

Lemma edges_iter_spec_step (n : nat) (self : CognitiveNetwork) :
  edges (Nat.iter n spec_step self) = edges self.
Proof. induction n; simpl; auto. Qed.





(** Settles well-formedness of a dictionary given by its entries. *)
Ltac wf_dec := unfold Dict.wf; simpl; repeat constructor; simpl; intuition discriminate.





(** ** Degree distribution *)

Lemma bump_degree_entry (d : Dict.t string Z) (node_id : string) (c : Z) :
  ~ In node_id (Dict.keys d) -> (0 <= c)%Z ->
  bump node_id (d ++ degree_entry node_id c) = d ++ degree_entry node_id (c + 1).
Proof.
  intros Hn Hc. unfold bump, degree_entry, Dict.get.
  destruct (Z.ltb_spec 0 c) as [Hpos|Hzero];
    destruct (Z.ltb_spec 0 (c + 1)) as [_|Hbad]; try lia.
  - rewrite DictFacts.getitem_here by assumption.
    now rewrite DictFacts.setitem_here.
  - rewrite app_nil_r. rewrite DictFacts.getitem_absent by assumption.
    rewrite DictFacts.setitem_absent by assumption.
    repeat f_equal. lia.
Qed.

Lemma incident_count_cons (node_id : string) (e : string * string)
  (es : list (string * string)) :
  incident_count node_id (e :: es) =
    ((if incident node_id e then 1 else 0) + incident_count node_id es)%Z.
Proof.
  unfold incident_count. cbn [filter].
  destruct (incident node_id e); cbn [List.length]; lia.
Qed.

(** The inner loop: the node's entry ends at its number of incident edges. *)
Lemma degree_inner_loop (node_id : string) (es : list (string * string))
  (d : Dict.t string Z) :
  ~ In node_id (Dict.keys d) ->
  fold_left (fun degrees e => if incident node_id e then bump node_id degrees else degrees)
            es d =
    d ++ degree_entry node_id (incident_count node_id es).
Proof.
  intros Hn.
  enough (E : forall es c, (0 <= c)%Z ->
    fold_left (fun degrees e => if incident node_id e then bump node_id degrees else degrees)
              es (d ++ degree_entry node_id c) =
      d ++ degree_entry node_id (c + incident_count node_id es)).
  { specialize (E es 0%Z (Z.le_refl 0)). unfold degree_entry at 1 in E. simpl in E.
    rewrite app_nil_r in E. exact E. }
  clear es. induction es as [|e es IH]; intros c Hc.
  - simpl. unfold incident_count. simpl. now rewrite Z.add_0_r.
  - rewrite incident_count_cons. cbn [fold_left]. destruct (incident node_id e).
    + rewrite bump_degree_entry by assumption.
      rewrite IH by lia. now rewrite Z.add_assoc.
    + rewrite IH by assumption. reflexivity.
Qed.

Lemma keys_degree_entry (node_id : string) (c : Z) (k : string) :
  In k (Dict.keys (degree_entry node_id c)) -> k = node_id.
Proof.
  unfold degree_entry. destruct (0 <? c)%Z; simpl; [|contradiction].
  intros [<-|[]]. reflexivity.
Qed.

(** The outer loop: one entry per node with a positive count, in node order. *)
Lemma degree_outer_loop (es : list (string * string)) (ids : list string)
  (d : Dict.t string Z) :
  NoDup ids -> (forall k, In k ids -> ~ In k (Dict.keys d)) ->
  fold_left
    (fun degrees node_id =>
       fold_left (fun degrees e => if incident node_id e then bump node_id degrees else degrees)
                 es degrees)
    ids d =
  d ++ flat_map (fun node_id => degree_entry node_id (incident_count node_id es)) ids.
Proof.
  revert d. induction ids as [|k ids IH]; intros d Hnd Hfresh; simpl.
  - now rewrite app_nil_r.
  - inversion Hnd as [|? ? Hk Hnd']; subst.
    rewrite degree_inner_loop by (apply Hfresh; now left).
    rewrite IH; [now rewrite <- app_assoc|assumption|].
    intros k' Hin. rewrite DictFacts.keys_app. intros Hin'.
    apply in_app_or in Hin'. destruct Hin' as [Hin'|Hin'].
    + apply (Hfresh k'); [now right|assumption].
    + apply keys_degree_entry in Hin'. subst. contradiction.
Qed.

Lemma values_degree_entries (es : list (string * string)) (ids : list string) :
  Dict.values (flat_map (fun node_id => degree_entry node_id (incident_count node_id es)) ids) =
    filter (fun c => (0 <? c)%Z) (map (fun node_id => incident_count node_id es) ids).
Proof.
  unfold Dict.values. induction ids as [|k ids IH]; simpl; [reflexivity|].
  rewrite map_app, IH. unfold degree_entry.
  destruct (0 <? incident_count k es)%Z; reflexivity.
Qed.

Lemma spec_endpoint_count_no_loop (node_id : string) (es : list (string * string)) :
  (forall e, In e es -> fst e <> snd e) ->
  spec_endpoint_count node_id es = incident_count node_id es.
Proof.
  induction es as [|[a b] es IH]; intros Hnl; [reflexivity|].
  rewrite incident_count_cons, <- IH by (intros e He; apply Hnl; now right).
  assert (Hab : a <> b) by (apply (Hnl (a, b)); now left).
  unfold spec_endpoint_count, incident. simpl.
  destruct (String.eqb_spec a node_id), (String.eqb_spec b node_id); simpl;
    try congruence; lia.
Qed.

(** C3, as the code has it: [get_degree_distribution] returns, in node
    order, one integer per node that has an incident edge, the number of
    edges with the node as source or destination, each edge counted once
    (an edge from the node to itself contributes one); nodes without an
    incident edge have no entry.  Without such edges this is the count by
    endpoint positions. *)
Theorem get_degree_distribution_incident (self : CognitiveNetwork) :
  Dict.wf (nodes self) ->
  get_degree_distribution self = incident_degree_distribution self /\
  ~ In 0%Z (get_degree_distribution self) /\
  (no_self_loop self -> get_degree_distribution self = spec_degree_distribution self).
Proof.
  intros Hwf.
  assert (E : get_degree_distribution self = incident_degree_distribution self).
  { unfold get_degree_distribution, incident_degree_distribution.
    rewrite degree_outer_loop; [|exact Hwf|intros k _ []].
    simpl. apply values_degree_entries. }
  split; [exact E|]. split.
  - rewrite E. unfold incident_degree_distribution. intros Hin.
    apply filter_In in Hin. destruct Hin as [_ Hin]. discriminate Hin.
  - intros Hnl. rewrite E. unfold incident_degree_distribution, spec_degree_distribution.
    f_equal. apply map_ext. intros k. symmetry. now apply spec_endpoint_count_no_loop.
Qed.

Lemma get_degree_distribution_incident_witness :
  Dict.wf (nodes demo_network) /\
  get_degree_distribution demo_network = [1%Z; 1%Z].
Proof.
  assert (Hwf : Dict.wf (nodes demo_network)) by wf_dec.
  split; [exact Hwf|].
  destruct (get_degree_distribution_incident demo_network Hwf) as (E & _ & _).
  rewrite E. reflexivity.
Defined.

(** C3, as the claim words it, fails on an edge from a node to itself:
    the code counts it once, the claim twice. *)
Lemma get_degree_distribution_self_loop :
  Dict.wf (nodes self_loop_network) /\
  get_degree_distribution self_loop_network = [1%Z] /\
  spec_degree_distribution self_loop_network = [2%Z] /\
  get_degree_distribution self_loop_network <> spec_degree_distribution self_loop_network.
Proof.
  split; [wf_dec|]. split; [reflexivity|]. split; [reflexivity|]. discriminate.
Qed.

(** ** Memory decay *)

Lemma wf_app_cons_fresh {V : Type} (k : string) (v : V) (pre post : Dict.t string V) :
  Dict.wf (pre ++ (k, v) :: post) -> ~ In k (Dict.keys pre).
Proof.
  unfold Dict.wf. rewrite DictFacts.keys_app. simpl. intros Hwf Hin.
  apply NoDup_remove_2 in Hwf. apply Hwf. apply in_or_app. now left.
Qed.

(** The first loop scales every entry in place and lists the keys that
    became weak. *)
Lemma decay_scan_spec (p : R) (mems : Dict.t string R) :
  Dict.wf mems ->
  decay_scan (1 - p) mems =
    Some (map (scale_entry p) mems,
          Dict.keys (filter weak (map (scale_entry p) mems))).
Proof.
  unfold decay_scan.
  enough (E : forall todo done to_remove,
    Dict.wf (done ++ todo) ->
    for_each (Dict.keys todo)
      (fun '(mems, to_remove) key =>
         v <- Dict.getitem key mems ;;
         let mems := Dict.setitem key (v * (1 - (1 - p) * 0.1)) mems in
         v' <- Dict.getitem key mems ;;
         Some (mems, if Float.ltb v' 0.01 then to_remove ++ [key] else to_remove))
      (done ++ todo, to_remove) =
    Some (done ++ map (scale_entry p) todo,
          to_remove ++ Dict.keys (filter weak (map (scale_entry p) todo)))).
  { intros Hwf. exact (E mems [] [] Hwf). }
  induction todo as [|[k v] todo IH]; intros done to_remove Hwf; simpl.
  - now rewrite !app_nil_r.
  - pose proof (wf_app_cons_fresh _ _ _ _ Hwf) as Hk.
    rewrite DictFacts.getitem_here by assumption.
    rewrite DictFacts.setitem_here by assumption.
    rewrite DictFacts.getitem_here by assumption.
    specialize (IH (done ++ [(k, v * (1 - (1 - p) * 0.1))])).
    rewrite <- !app_assoc in IH. simpl in IH. rewrite IH.
    2:{ unfold Dict.wf in *. rewrite DictFacts.keys_app in *. exact Hwf. }
    change (scale_entry p (k, v)) with (k, v * (1 - (1 - p) * 0.1)).
    change (weak (k, v * (1 - (1 - p) * 0.1)))
      with (Float.ltb (v * (1 - (1 - p) * 0.1)) 0.01).
    destruct (Float.ltb (v * (1 - (1 - p) * 0.1)) 0.01); simpl.
    + now rewrite <- app_assoc.
    + reflexivity.
Qed.

(** The second loop finds every key it deletes and leaves the other
    entries in place. *)
Lemma decay_purge_spec (mems : Dict.t string R) :
  Dict.wf mems ->
  decay_purge mems (Dict.keys (filter weak mems)) =
    Some (filter (fun it => negb (weak it)) mems).
Proof.
  unfold decay_purge.
  enough (E : forall todo kept,
    Dict.wf (kept ++ todo) ->
    for_each (Dict.keys (filter weak todo)) (fun mems key => Dict.delitem key mems)
             (kept ++ todo) =
    Some (kept ++ filter (fun it => negb (weak it)) todo)).
  { intros Hwf. exact (E mems [] Hwf). }
  induction todo as [|[k v] todo IH]; intros kept Hwf; simpl; [reflexivity|].
  pose proof (wf_app_cons_fresh _ _ _ _ Hwf) as Hk.
  destruct (weak (k, v)); simpl.
  - rewrite DictFacts.delitem_here by assumption. apply IH.
    unfold Dict.wf in *. rewrite DictFacts.keys_app in *. simpl in Hwf.
    now apply NoDup_remove_1 in Hwf.
  - specialize (IH (kept ++ [(k, v)])). rewrite <- !app_assoc in IH. simpl in IH.
    apply IH. exact Hwf.
Qed.

Lemma wf_map_scale (p : R) (mems : Dict.t string R) :
  Dict.wf mems -> Dict.wf (map (scale_entry p) mems).
Proof. unfold Dict.wf, Dict.keys. now rewrite map_map. Qed.


(** One call of the code is the decay of the specification. *)
Lemma decay_spec (self : MemoryModule) :
  Dict.wf (memories self) -> decay self = Some (spec_decay self).
Proof.
  intros Hwf. unfold decay.
  rewrite decay_scan_spec by assumption.
  rewrite decay_purge_spec by now apply wf_map_scale.
  reflexivity.
Qed.



Lemma getitem_spec_decay (p : R) (key : string) (mems : Dict.t string R) :
  Dict.wf mems ->
  Dict.getitem key (filter (fun it => negb (weak it)) (map (scale_entry p) mems)) =
    match Dict.getitem key mems with
    | Some v => if Float.ltb (v * decay_factor p) 0.01 then None else Some (v * decay_factor p)
    | None => None
    end.
Proof.
  unfold Dict.wf. induction mems as [|[k v] mems IH]; simpl; intros Hwf; [reflexivity|].
  inversion Hwf as [|? ? Hk Hwf']; subst.
  change (weak (scale_entry p (k, v))) with (Float.ltb (v * decay_factor p) 0.01).
  destruct (String.eqb_spec key k) as [->|Hne].
  - destruct (Float.ltb (v * decay_factor p) 0.01); simpl.
    + apply DictFacts.getitem_absent. intros Hin. apply Hk.
      unfold Dict.keys in *. apply in_map_iff in Hin. destruct Hin as ([k' v'] & E & Hin).
      simpl in E. subst. apply filter_In in Hin. destruct Hin as [Hin _].
      apply in_map_iff in Hin. destruct Hin as ([k'' v''] & [= <- _] & Hin).
      change k'' with (fst (k'', v'')). now apply in_map.
    + now rewrite String.eqb_refl.
  - destruct (Float.ltb (v * decay_factor p) 0.01); simpl.
    + now apply IH.
    + apply String.eqb_neq in Hne. rewrite Hne. now apply IH.
Qed.



(** ** Causal density *)

Lemma most_recent_skipn {A : Type} (n : nat) (l : list A) :
  most_recent n l = skipn (List.length l - n) l.
Proof. unfold most_recent. rewrite firstn_rev. apply rev_involutive. Qed.

(** [l[-100:]] is the trailing window of the specification. *)
Lemma slice_from_most_recent {A : Type} (l : list A) :
  slice_from (-100) l = most_recent (Nat.min (List.length l) 100) l.
Proof.
  rewrite most_recent_skipn. unfold slice_from.
  change (-100 <? 0)%Z with true. cbv iota. f_equal. lia.
Qed.

Lemma length_most_recent {A : Type} (n : nat) (l : list A) :
  List.length (most_recent n l) = Nat.min (List.length l) n.
Proof. rewrite most_recent_skipn, length_skipn. lia. Qed.


(** The cached density is the density of the specification over the log. *)
Lemma update_density_spec (self : CausalityEngine) :
  _update_density self =
    {| events := events self; current_density := spec_density (events self) |}.
Proof.
  unfold _update_density, spec_density.
  destruct (events self) as [|e evs] eqn:E; [reflexivity|].
  rewrite <- E.
  assert (Hlen : (0 < List.length (events self))%nat) by (rewrite E; simpl; lia).
  destruct (Z.eqb_spec (Z.of_nat (List.length (events self))) 0) as [H0|_]; [lia|].
  f_equal. rewrite FloatFacts.min_Rmin, fsum_Rsum, slice_from_most_recent, length_most_recent.
  replace (Nat.min (List.length (events self)) (Nat.min (List.length (events self)) 100))
    with (Nat.min (List.length (events self)) 100) by lia.
  rewrite Z.max_l by lia. now rewrite <- INR_IZR_INZ.
Qed.


Lemma register_event_spec (self : CausalityEngine) (src dst : string) (strength : R) :
  register_event self src dst strength =
    {| events := events self ++ [(src, dst, strength)];
       current_density := spec_density (events self ++ [(src, dst, strength)]) |}.
Proof. unfold register_event. now rewrite update_density_spec. Qed.

Lemma spec_density_le_1 (evs : list Event) : spec_density evs <= 1.
Proof.
  unfold spec_density. destruct evs; [lra|]. apply Rmin_l.
Qed.

Lemma Forall_most_recent {A : Type} (P : A -> Prop) (n : nat) (l : list A) :
  Forall P l -> Forall P (most_recent n l).
Proof.
  rewrite most_recent_skipn. generalize (List.length l - n)%nat. intros k Hl.
  revert k. induction Hl as [|x l Hx Hl IH]; intros [|k]; simpl; auto.
Qed.

Lemma Rsum_nonneg (l : list R) : Forall (fun x => 0 <= x) l -> 0 <= Rsum l.
Proof. induction 1; simpl; lra. Qed.

Lemma spec_density_nonneg (evs : list Event) :
  Forall (fun e => 0 <= ev_strength e) evs -> 0 <= spec_density evs.
Proof.
  intros Hpos. unfold spec_density. destruct evs as [|e evs]; [lra|].
  set (l := e :: evs) in *. set (n := Nat.min (List.length l) 100).
  assert (Hn : 0 < INR n).
  { apply lt_0_INR. subst n l. simpl. lia. }
  assert (HT : 0 <= Rsum (map ev_strength (most_recent n l))).
  { apply Rsum_nonneg. apply Forall_map. now apply Forall_most_recent. }
  apply Rmin_glb; [lra|]. unfold Rdiv.
  apply Rmult_le_pos; [exact HT|]. left. now apply Rinv_0_lt_compat.
Qed.

Lemma register_all_spec (evs : list Event) (self : CausalityEngine) :
  events (register_all self evs) = events self ++ evs /\
  current_density (register_all self evs) =
    match evs with
    | [] => current_density self
    | _ :: _ => spec_density (events self ++ evs)
    end.
Proof.
  revert self. induction evs as [|[[a b] c] evs IH]; intros self; simpl.
  - now rewrite app_nil_r.
  - unfold ev_src, ev_dst, ev_strength. simpl.
    rewrite register_event_spec.
    destruct (IH {| events := events self ++ [(a, b, c)];
                    current_density := spec_density (events self ++ [(a, b, c)]) |})
      as [He Hd].
    simpl in He, Hd. rewrite <- app_assoc in He, Hd. simpl in He, Hd.
    split; [exact He|]. rewrite Hd. now destruct evs.
Qed.


(** C10: after any sequence of [register_event] calls with nonnegative
    strengths the density lies in [0, 1]; the bound by 1 holds after a
    call whatever the strengths are. *)
Theorem density_unit_interval (self : CausalityEngine) (evs : list Event) :
  (Forall (fun e => 0 <= ev_strength e) evs ->
   0 <= current_density (register_all new_engine evs) <= 1) /\
  (Forall (fun e => 0 <= ev_strength e) (events self) ->
   Forall (fun e => 0 <= ev_strength e) evs ->
   evs <> [] ->
   0 <= current_density (register_all self evs) <= 1) /\
  (evs <> [] -> current_density (register_all self evs) <= 1) /\
  (forall src dst strength,
     current_density (register_event self src dst strength) <= 1).
Proof.
  split; [|split; [|split]].
  - intros Hpos. destruct (register_all_spec evs new_engine) as [_ Hd]. rewrite Hd.
    destruct evs as [|e evs']; [simpl; lra|].
    change (events new_engine ++ e :: evs') with (e :: evs').
    split; [now apply spec_density_nonneg|apply spec_density_le_1].
  - intros Hold Hpos Hne. destruct (register_all_spec evs self) as [_ Hd]. rewrite Hd.
    destruct evs as [|e evs']; [congruence|].
    split; [|apply spec_density_le_1].
    apply spec_density_nonneg. apply Forall_app. now split.
  - intros Hne. destruct (register_all_spec evs self) as [_ Hd]. rewrite Hd.
    destruct evs as [|e evs']; [congruence|]. apply spec_density_le_1.
  - intros src dst strength. rewrite register_event_spec. simpl. apply spec_density_le_1.
Qed.

Lemma density_unit_interval_witness :
  Forall (fun e => 0 <= ev_strength e) demo_events /\
  0 <= current_density (register_all new_engine demo_events) <= 1.
Proof.
  assert (Hpos : Forall (fun e => 0 <= ev_strength e) demo_events).
  { unfold demo_events, ev_strength. repeat constructor; simpl; lra. }
  split; [exact Hpos|].
  destruct (density_unit_interval new_engine demo_events) as (Hunit & _).
  exact (Hunit Hpos).
Defined.

(** ** Causal chains *)

Lemma next_nodes_app (evs : list Event) (e : Event) (current : string) :
  next_nodes (evs ++ [e]) current =
    next_nodes evs current ++ (if String.eqb (ev_src e) current then [ev_dst e] else []).
Proof.
  unfold next_nodes. rewrite filter_app, map_app. simpl.
  now destruct (String.eqb (ev_src e) current).
Qed.

Lemma no_outgoing_next_nodes (evs : list Event) (current : string) :
  next_nodes evs current = [] <-> no_outgoing evs current.
Proof.
  unfold next_nodes, no_outgoing. split.
  - intros E e Hin Hsrc.
    assert (Hf : In e (filter (fun e => String.eqb (ev_src e) current) evs)).
    { apply filter_In. split; [assumption|]. now apply String.eqb_eq. }
    apply (in_map ev_dst) in Hf. rewrite E in Hf. contradiction.
  - intros Hno. induction evs as [|e evs IH]; simpl; [reflexivity|].
    destruct (String.eqb_spec (ev_src e) current) as [Heq|_].
    + exfalso. apply (Hno e); [now left|assumption].
    + apply IH. intros e' Hin. apply Hno. now right.
Qed.

(** The last element of the comprehension is where the event of greatest
    index with source [current] leads. *)
Lemma last_next_nodes (evs : list Event) (current d : string) (ds : list string) :
  next_nodes evs current = d :: ds ->
  last_outgoing evs current (last (d :: ds) d).
Proof.
  revert d ds. induction evs as [|e evs IH] using rev_ind; intros d ds E.
  - discriminate E.
  - rewrite next_nodes_app in E.
    destruct (String.eqb_spec (ev_src e) current) as [Hsrc|Hsrc].
    + rewrite <- E, last_last.
      exists (List.length evs), (ev_strength e). split.
      * rewrite nth_error_app2, Nat.sub_diag by lia. simpl.
        destruct e as [[a b] c]. unfold ev_src in Hsrc. simpl in *. now subst.
      * intros j e' Hj Hnth.
        assert (Hsome : nth_error (evs ++ [e]) j <> None) by congruence.
        apply nth_error_Some in Hsome. rewrite length_app in Hsome. simpl in Hsome. lia.
    + rewrite app_nil_r in E. destruct (IH d ds E) as (i & s & Hi & Hlast).
      assert (Hlt : (i < List.length evs)%nat).
      { apply nth_error_Some. congruence. }
      exists i, s. split.
      * now rewrite nth_error_app1.
      * intros j e' Hj Hnth.
        destruct (Nat.lt_ge_cases j (List.length evs)) as [Hin|Hout].
        -- rewrite nth_error_app1 in Hnth by assumption. eauto.
        -- rewrite nth_error_app2 in Hnth by assumption.
           destruct (j - List.length evs)%nat as [|k]; simpl in Hnth.
           ++ injection Hnth as <-. assumption.
           ++ now destruct k.
Qed.

Lemma last_outgoing_functional (evs : list Event) (current d d' : string) :
  last_outgoing evs current d -> last_outgoing evs current d' -> d = d'.
Proof.
  intros (i & s & Hi & Hmax) (i' & s' & Hi' & Hmax').
  destruct (Nat.lt_trichotomy i i') as [Hlt|[Heq|Hgt]].
  - exfalso. apply (Hmax i' _ Hlt Hi'). reflexivity.
  - subst. congruence.
  - exfalso. apply (Hmax' i _ Hgt Hi). reflexivity.
Qed.

Lemma last_outgoing_not_stuck (evs : list Event) (current d : string) :
  last_outgoing evs current d -> no_outgoing evs current -> False.
Proof.
  intros (i & s & Hi & _) Hno. apply nth_error_In in Hi.
  apply (Hno _ Hi). reflexivity.
Qed.

(** The walk is determined by the log, the depth and the start. *)
Lemma causal_walk_functional (evs : list Event) (n : nat) (current : string)
  (rest rest' : list string) :
  causal_walk evs n current rest -> causal_walk evs n current rest' -> rest = rest'.
Proof.
  intros Hw. revert rest'. induction Hw as [c|n c Hno|n c d rest Hlast Hw IH];
    intros rest' Hw'; inversion Hw'; subst; try reflexivity.
  - exfalso. eapply last_outgoing_not_stuck; eassumption.
  - exfalso. eapply last_outgoing_not_stuck; eassumption.
  - assert (d = next) by (eapply last_outgoing_functional; eassumption). subst.
    f_equal. now apply IH.
Qed.

Lemma causal_walk_length (evs : list Event) (n : nat) (current : string)
  (rest : list string) :
  causal_walk evs n current rest -> (List.length rest <= n)%nat.
Proof. induction 1; simpl; lia. Qed.

(** The loop appends to the chain the walk from the current node. *)
Lemma causal_chain_loop_walk (evs : list Event) (fuel : nat) (current : string)
  (chain : list string) :
  exists rest,
    causal_chain_loop fuel evs current chain = chain ++ rest /\
    causal_walk evs fuel current rest.
Proof.
  revert current chain.
  induction fuel as [|fuel IH]; intros current chain; cbn [causal_chain_loop].
  - exists []. split; [now rewrite app_nil_r|constructor].
  - destruct (next_nodes evs current) as [|d ds] eqn:E; cbv zeta.
    + exists []. split; [now rewrite app_nil_r|].
      apply walk_stuck. now apply no_outgoing_next_nodes.
    + destruct (IH (last (d :: ds) d) (chain ++ [last (d :: ds) d])) as (rest & Hrun & Hw).
      exists (last (d :: ds) d :: rest). split.
      * rewrite Hrun, <- app_assoc. reflexivity.
      * apply walk_hop; [now apply last_next_nodes|assumption].
Qed.

(** C7: [get_causal_chain] returns [start] followed by the walk that, for
    at most [max_depth] hops, moves to the destination of the event of
    greatest index whose source is the current node and stops when there
    is none; from a start without outgoing events it is [[start]]. *)
Theorem get_causal_chain_walk (self : CausalityEngine) (start : string) (max_depth : Z) :
  exists rest,
    get_causal_chain self start max_depth = start :: rest /\
    causal_walk (events self) (Z.to_nat max_depth) start rest /\
    (forall rest', causal_walk (events self) (Z.to_nat max_depth) start rest' ->
                   rest' = rest) /\
    (List.length rest <= Z.to_nat max_depth)%nat /\
    (no_outgoing (events self) start -> get_causal_chain self start max_depth = [start]).
Proof.
  unfold get_causal_chain.
  destruct (causal_chain_loop_walk (events self) (Z.to_nat max_depth) start [start])
    as (rest & Hrun & Hw).
  exists rest. split; [exact Hrun|]. split; [exact Hw|].
  split; [|split].
  - intros rest' Hw'. eapply causal_walk_functional; eassumption.
  - eapply causal_walk_length; eassumption.
  - intros Hno. rewrite Hrun. simpl. f_equal.
    eapply causal_walk_functional; [exact Hw|]. now apply walk_stuck.
Qed.

Example get_causal_chain_demo :
  get_causal_chain {| events := demo_events; current_density := 0 |} "a" 5 =
    ["a"; "b"; "a"; "b"; "a"; "b"].
Proof. reflexivity. Qed.

(** ** Concrete runs, after the test suite *)

Ltac run_predict :=
  simpl; unfold classify_universality_class, compute_capacity, CLASS_THRESHOLDS;
  float_cases; simpl in *; try reflexivity; exfalso; lra.

Example predict_human_brain :
  State.phi (fst (predict new_synthesis (params_SDM 0.85 0.70 0.60))) = 1%Z.
Proof. run_predict. Qed.

Example predict_simple_mlp :
  State.phi (fst (predict new_synthesis (params_SDM 0.20 0.30 0.01))) = 0%Z.
Proof. run_predict. Qed.

Example predict_above_threshold :
  State.phi (fst (predict new_synthesis (params_SDM 0.5 0.3 0.025))) = 1%Z.
Proof. run_predict. Qed.

Example predict_below_threshold :
  State.phi (fst (predict new_synthesis (params_SDM 0.5 0.1 0.01))) = 0%Z.
Proof. run_predict. Qed.

Example hub_degrees :
  get_degree_distribution hub_network = [9; 1; 1; 1; 1; 1; 1; 1; 1; 1]%Z.
Proof. reflexivity. Qed.

Example hub_structural_differentiation :
  compute_structural_differentiation hub_network > 0.3.
Proof.
  unfold compute_structural_differentiation. rewrite hub_degrees.
  cbv [List.length isum imax fold_left Z.gtb Z.compare Pos.compare Pos.compare_cont
       Z.add Pos.add Pos.succ Z.of_nat Pos.of_succ_nat].
  match goal with |- context [sqrt ?v] => pose proof (sqrt_pos v) as Hs; set (r := sqrt v) in * end.
  rewrite !FloatFacts.min_Rmin.
  replace (Float.eqb (18 / 10) 0) with false
    by (symmetry; unfold Float.eqb; destruct (Req_dec_T (18 / 10) 0); [lra|reflexivity]).
  assert (Hcv : 0 <= r / (18 / 10)).
  { unfold Rdiv. apply Rmult_le_pos; [exact Hs|lra]. }
  assert (Hhub : Rmin 1 (9 / (10 * 0.3)) = 1) by (apply Rmin_left; lra).
  rewrite Hhub. apply Rmin_case; lra.
Qed.

Example density_demo :
  current_density (register_all new_engine demo_events) = 1.75 / 3.
Proof.
  destruct (register_all_spec demo_events new_engine) as [_ Hd]. rewrite Hd.
  unfold spec_density, most_recent, demo_events, ev_strength. simpl.
  rewrite Rmin_right by lra. lra.
Qed.

Lemma classify_first_match_witness :
  ~ (0.7 > 0.5 /\ 0.6 < 0.5) /\ (0.7 > 0.6 /\ 0.03 < 0.05) /\
  classify_universality_class 0.7 0.6 0.03 = FAST_PROPAGATION.
Proof.
  assert (H1 : ~ (0.7 > 0.5 /\ 0.6 < 0.5)) by lra.
  assert (H2 : 0.7 > 0.6 /\ 0.03 < 0.05) by lra.
  split; [exact H1|]. split; [exact H2|].
  destruct (classify_first_match 0.7 0.6 0.03) as (_ & Hrule2 & _).
  exact (Hrule2 H1 H2).
Defined.


Lemma get_causal_chain_walk_witness :
  no_outgoing demo_events "c" /\
  get_causal_chain {| events := demo_events; current_density := 0 |} "c" 5 = ["c"].
Proof.
  assert (Hno : no_outgoing demo_events "c").
  { intros e [<-|[<-|[<-|[]]]]; discriminate. }
  split; [exact Hno|].
  destruct (get_causal_chain_walk {| events := demo_events; current_density := 0 |} "c" 5)
    as (rest & _ & _ & _ & _ & Hsingle).
  exact (Hsingle Hno).
Defined.

(** * Further properties of the code *)

(** ** Dictionary round trips *)

Module DictLaws.
Section Laws.
Context {K V : Type} `{Key K}.

Lemma getitem_setitem_same (k : K) (v : V) (d : Dict.t K V) :
  Dict.getitem k (Dict.setitem k v d) = Some v.
Proof.
  induction d as [|[k' v'] d IH]; simpl.
  - now rewrite DictFacts.keqb_refl.
  - destruct (keqb_spec k k') as [->|Hne]; simpl.
    + now rewrite DictFacts.keqb_refl.
    + now rewrite DictFacts.keqb_neq.
Qed.

Lemma getitem_setitem_other (k k0 : K) (v : V) (d : Dict.t K V) :
  k0 <> k -> Dict.getitem k0 (Dict.setitem k v d) = Dict.getitem k0 d.
Proof.
  intros Hne. induction d as [|[k' v'] d IH]; simpl.
  - now rewrite DictFacts.keqb_neq.
  - destruct (keqb_spec k k') as [->|Hk]; simpl.
    + now rewrite DictFacts.keqb_neq.
    + now rewrite IH.
Qed.

Lemma mem_In (k : K) (d : Dict.t K V) : Dict.mem k d = true <-> In k (Dict.keys d).
Proof.
  unfold Dict.mem. split.
  - intros Hm. destruct (Dict.getitem k d) as [v|] eqn:G; [|discriminate].
    apply DictFacts.getitem_Some_In in G. change k with (fst (k, v)). now apply in_map.
  - intros Hin. destruct (DictFacts.getitem_present k d Hin) as [v ->]. reflexivity.
Qed.

Lemma mem_false (k : K) (d : Dict.t K V) : Dict.mem k d = false <-> ~ In k (Dict.keys d).
Proof.
  rewrite <- mem_In. destruct (Dict.mem k d); split; intros; congruence.
Qed.

Lemma keys_setitem (k : K) (v : V) (d : Dict.t K V) :
  Dict.keys (Dict.setitem k v d) =
    if Dict.mem k d then Dict.keys d else Dict.keys d ++ [k].
Proof.
  destruct (Dict.mem k d) eqn:M.
  - apply DictFacts.keys_setitem_present. now apply mem_In.
  - apply mem_false in M. rewrite DictFacts.setitem_absent by assumption.
    now rewrite DictFacts.keys_app.
Qed.

End Laws.
End DictLaws.

(** ** Building a network *)

(** X1: after [add_node] the node is found with the given activation,
    whether it is new or re-added; the other nodes and all edges are as
    before; a re-added node keeps its place and a new one goes last. *)
Theorem add_node_lookup (self : CognitiveNetwork) (node_id other : string) (act : R) :
  let self' := add_node self node_id act in
  Dict.getitem node_id (nodes self') = Some {| activation := act |} /\
  (other <> node_id -> Dict.getitem other (nodes self') = Dict.getitem other (nodes self)) /\
  Dict.keys (nodes self') =
    (if Dict.mem node_id (nodes self) then Dict.keys (nodes self)
     else Dict.keys (nodes self) ++ [node_id]) /\
  edges self' = edges self.
Proof.
  cbv zeta. unfold add_node. simpl. split; [apply DictLaws.getitem_setitem_same|].
  split; [intros Hne; now apply DictLaws.getitem_setitem_other|].
  split; [apply DictLaws.keys_setitem|reflexivity].
Qed.

(** X2: [add_edge] records the edge under the ordered pair, replacing an
    earlier edge of the same pair and leaving every other pair (the
    reversed one included) and all nodes as they were; endpoints are not
    required to be nodes. *)
Theorem add_edge_lookup (self : CognitiveNetwork) (src dst : string) (w cs : R)
  (other : string * string) :
  let self' := add_edge self src dst w cs in
  Dict.getitem (src, dst) (edges self') = Some {| weight := w; causal_strength := cs |} /\
  (other <> (src, dst) -> Dict.getitem other (edges self') = Dict.getitem other (edges self)) /\
  (src <> dst -> Dict.getitem (dst, src) (edges self') = Dict.getitem (dst, src) (edges self)) /\
  Dict.keys (edges self') =
    (if Dict.mem (src, dst) (edges self) then Dict.keys (edges self)
     else Dict.keys (edges self) ++ [(src, dst)]) /\
  nodes self' = nodes self.
Proof.
  cbv zeta. unfold add_edge. simpl. split; [apply DictLaws.getitem_setitem_same|].
  split; [intros Hne; now apply DictLaws.getitem_setitem_other|].
  split; [|split; [apply DictLaws.keys_setitem|reflexivity]].
  intros Hne. apply DictLaws.getitem_setitem_other. congruence.
Qed.

(** ** Memory: store, recall, proto-language *)

(** X3: [recall] after [store] gives the stored strength, also when the
    key was stored before; other keys are not affected; a key that was
    never stored recalls 0. *)
Theorem store_recall (self : MemoryModule) (key other : string) (strength : R) :
  recall (store self key strength) key = strength /\
  (other <> key -> recall (store self key strength) other = recall self other) /\
  (Dict.mem other (memories self) = false -> recall self other = 0) /\
  recall (new_memory (persistence self)) other = 0 /\
  persistence (store self key strength) = persistence self /\
  proto_language (store self key strength) = proto_language self.
Proof.
  unfold recall, store, Dict.get. simpl.
  rewrite DictLaws.getitem_setitem_same. split; [reflexivity|].
  split; [intros Hne; now rewrite DictLaws.getitem_setitem_other|].
  split; [|repeat split].
  unfold Dict.mem. now destruct (Dict.getitem other (memories self)).
Qed.

Lemma existsb_eqb_In (x : string) (l : list string) :
  existsb (String.eqb x) l = true <-> In x l.
Proof.
  rewrite existsb_exists. split.
  - intros (y & Hin & E). apply String.eqb_eq in E. now subst.
  - intros Hin. exists x. split; [assumption|apply String.eqb_refl].
Qed.

(** X4: [form_proto_language] makes the pattern a member; a pattern that
    is already there changes nothing, a new one goes to the end; a list
    without duplicates stays without duplicates, and a second call with
    the same pattern has no effect. *)
Theorem form_proto_language_set (self : MemoryModule) (pattern : string) :
  let self' := form_proto_language self pattern in
  In pattern (proto_language self') /\
  (In pattern (proto_language self) -> self' = self) /\
  (~ In pattern (proto_language self) ->
   proto_language self' = proto_language self ++ [pattern]) /\
  (NoDup (proto_language self) -> NoDup (proto_language self')) /\
  form_proto_language self' pattern = self' /\
  memories self' = memories self.
Proof.
  cbv zeta.
  destruct (existsb (String.eqb pattern) (proto_language self)) eqn:E.
  - assert (Hsame : form_proto_language self pattern = self).
    { unfold form_proto_language. now rewrite E. }
    assert (Hin : In pattern (proto_language self)) by now apply existsb_eqb_In.
    rewrite !Hsame.
    split; [exact Hin|]. split; [reflexivity|]. split; [contradiction|].
    split; [auto|]. split; reflexivity.
  - assert (Hnew : form_proto_language self pattern =
                   {| persistence := persistence self;
                      memories := memories self;
                      proto_language := proto_language self ++ [pattern] |}).
    { unfold form_proto_language. now rewrite E. }
    assert (Hn : ~ In pattern (proto_language self)).
    { rewrite <- existsb_eqb_In. congruence. }
    rewrite !Hnew. simpl. split; [apply in_or_app; right; now left|].
    split; [contradiction|]. split; [reflexivity|].
    split; [|split; [|reflexivity]].
    + intros Hnd. apply NoDup_app; [assumption|repeat constructor; simpl; tauto|].
      intros x Hx [<-|[]]. contradiction.
    + unfold form_proto_language. simpl.
      assert (Hy : existsb (String.eqb pattern) (proto_language self ++ [pattern]) = true).
      { apply existsb_eqb_In. apply in_or_app. right. now left. }
      now rewrite Hy.
Qed.

(** ** Memory: what decay does over time *)

Lemma subseq_refl {A : Type} (l : list A) : subseq l l.
Proof. induction l; constructor; assumption. Qed.

Lemma subseq_keys_filter {V : Type} (f : string * V -> bool) (d : Dict.t string V) :
  subseq (Dict.keys (filter f d)) (Dict.keys d).
Proof.
  induction d as [|[k v] d IH]; simpl; [constructor|].
  destruct (f (k, v)); simpl; now constructor.
Qed.

Lemma decay_factor_range (p : R) : 0 <= p <= 1 -> 0.9 <= decay_factor p <= 1.
Proof. unfold decay_factor. lra. Qed.

(** X5: with persistence in [0, 1], [decay] returns a module whose keys
    are some of the old keys in the old order, whose every strength is the
    old one times the decay factor and lies between 0.01 and the old
    strength; persistence and proto-language are untouched. *)
Theorem decay_shrinks (self : MemoryModule) :
  Dict.wf (memories self) ->
  0 <= persistence self <= 1 ->
  exists self',
    decay self = Some self' /\
    subseq (Dict.keys (memories self')) (Dict.keys (memories self)) /\
    (forall key v',
       Dict.getitem key (memories self') = Some v' ->
       exists v, Dict.getitem key (memories self) = Some v /\
                 v' = v * decay_factor (persistence self) /\
                 0.01 <= v' <= v) /\
    persistence self' = persistence self /\
    proto_language self' = proto_language self.
Proof.
  intros Hwf Hp. exists (spec_decay self). split; [now apply decay_spec|].
  split; [|split; [|split; reflexivity]].
  - simpl. replace (Dict.keys (memories self))
      with (Dict.keys (map (scale_entry (persistence self)) (memories self)))
      by (unfold Dict.keys; now rewrite map_map).
    apply subseq_keys_filter.
  - intros key v' Hget. simpl in Hget. rewrite getitem_spec_decay in Hget by assumption.
    destruct (Dict.getitem key (memories self)) as [v|]; [|discriminate].
    exists v. split; [reflexivity|].
    destruct (Float.ltb (v * decay_factor (persistence self)) 0.01) eqn:E; [discriminate|].
    injection Hget as <-. apply FloatFacts.ltb_false in E.
    pose proof (decay_factor_range _ Hp) as Hf.
    split; [reflexivity|]. split; [exact E|]. nra.
Qed.

Lemma decay_shrinks_witness :
  Dict.wf (memories demo_memory) /\ 0 <= persistence demo_memory <= 1 /\
  exists self',
    decay demo_memory = Some self' /\
    subseq (Dict.keys (memories self')) (Dict.keys (memories demo_memory)).
Proof.
  assert (Hwf : Dict.wf (memories demo_memory)) by wf_dec.
  assert (Hp : 0 <= persistence demo_memory <= 1) by (simpl; lra).
  split; [exact Hwf|]. split; [exact Hp|].
  destruct (decay_shrinks demo_memory Hwf Hp) as (self' & Hrun & Hsub & _).
  exists self'. split; [exact Hrun|exact Hsub].
Defined.









Lemma filter_nothing {A : Type} (f : A -> bool) (l : list A) :
  Forall (fun x => f x = false) l -> filter f l = [].
Proof. induction 1 as [|x l Hx _ IH]; simpl; [reflexivity|]. now rewrite Hx. Qed.



(** ** Propagation: steps, silence and isolation *)

Lemma propagate_iter_add (m n : nat) (self : CognitiveNetwork) :
  propagate_iter (m + n) self = (self' <- propagate_iter m self ;; propagate_iter n self').
Proof.
  revert self. induction m as [|m IH]; intros self; simpl; [reflexivity|].
  destruct (propagate_step self); [apply IH|reflexivity].
Qed.

(** X8: [propagate] with zero or a negative number of steps returns the
    network as it is, and [a + b] steps are [a] steps followed by [b]
    steps, an exception in the first part being the exception of the
    whole. *)
Theorem propagate_compose (self : CognitiveNetwork) (a b : Z) :
  ((a <= 0)%Z -> propagate self a = Some self) /\
  ((0 <= a)%Z -> (0 <= b)%Z ->
   propagate self (a + b) = (self' <- propagate self a ;; propagate self' b)).
Proof.
  unfold propagate. split.
  - intros Ha. replace (Z.to_nat a) with 0%nat by lia. reflexivity.
  - intros Ha Hb. rewrite Z2Nat.inj_add by assumption. apply propagate_iter_add.
Qed.

Lemma propagate_compose_witness :
  (0 <= 1)%Z /\ (0 <= 2)%Z /\
  propagate demo_network (1 + 2) = (self' <- propagate demo_network 1 ;; propagate self' 2).
Proof.
  assert (Ha : (0 <= 1)%Z) by lia. assert (Hb : (0 <= 2)%Z) by lia.
  split; [exact Ha|]. split; [exact Hb|].
  destruct (propagate_compose demo_network 1 2) as [_ Hsplit].
  exact (Hsplit Ha Hb).
Defined.

Lemma tanh_0 : tanh 0 = 0.
Proof. unfold tanh. rewrite sinh_0, cosh_0. lra. Qed.




Lemma mem_same_keys {V W : Type} (k : string) (d : Dict.t string V) (d' : Dict.t string W) :
  Dict.keys d = Dict.keys d' -> Dict.mem k d = Dict.mem k d'.
Proof.
  intros E. destruct (Dict.mem k d') eqn:M.
  - apply DictLaws.mem_In. rewrite E. now apply DictLaws.mem_In.
  - apply DictLaws.mem_false. rewrite E. now apply DictLaws.mem_false.
Qed.

Lemma spec_incoming_unfed (self : CognitiveNetwork) (node_id : string) :
  (forall e, In e (Dict.keys (edges self)) -> Dict.mem (fst e) (nodes self) = false) ->
  spec_incoming self node_id = 0.
Proof.
  intros Hdang. unfold spec_incoming.
  replace (filter (feeds self node_id) (edges self)) with (@nil (string * string * Edge));
    [reflexivity|].
  symmetry. apply filter_nothing. apply Forall_forall. intros [e edge] Hin.
  unfold feeds. simpl. rewrite (Hdang e), andb_false_r; [reflexivity|].
  change e with (fst (e, edge)). now apply in_map.
Qed.

(** X10: when no edge has a node as its source (no edges at all, or only
    edges from identifiers that are not nodes), these edges are skipped
    and [n] steps multiply every activation by 0.9^n. *)
Theorem propagate_unfed (self : CognitiveNetwork) (n : nat) :
  Dict.wf (nodes self) ->
  (forall e, In e (Dict.keys (edges self)) -> Dict.mem (fst e) (nodes self) = false) ->
  propagate self (Z.of_nat n) =
    Some {| nodes := map (fun it => (fst it, {| activation := 0.9 ^ n * activation (snd it) |}))
                         (nodes self);
            edges := edges self |}.
Proof.
  intros Hwf Hdang. unfold propagate. rewrite Nat2Z.id.
  rewrite propagate_iter_spec by assumption. f_equal.
  induction n as [|n IH]; simpl Nat.iter.
  - destruct self as [ns es]. simpl. f_equal.
    rewrite <- (map_id ns) at 1. apply map_ext. intros [k [a]]. simpl.
    do 2 f_equal. lra.
  - rewrite IH. unfold spec_step. cbn [nodes edges]. f_equal.
    rewrite map_map. apply map_ext. intros [k [a]]. cbn [fst snd].
    unfold spec_activation. cbn [activation]. do 2 f_equal.
    rewrite spec_incoming_unfed.
    + rewrite tanh_0. simpl. lra.
    + cbn [nodes edges]. intros e Hin. rewrite <- (Hdang e Hin).
      apply mem_same_keys. unfold Dict.keys. now rewrite map_map.
Qed.

Lemma propagate_unfed_witness :
  Dict.wf (nodes dangling_network) /\
  (forall e, In e (Dict.keys (edges dangling_network)) ->
             Dict.mem (fst e) (nodes dangling_network) = false) /\
  propagate dangling_network 2 =
    Some {| nodes := [("a", {| activation := 0.9 ^ 2 * 1 |})];
            edges := edges dangling_network |}.
Proof.
  assert (Hwf : Dict.wf (nodes dangling_network)) by wf_dec.
  assert (Hd : forall e, In e (Dict.keys (edges dangling_network)) ->
                         Dict.mem (fst e) (nodes dangling_network) = false).
  { intros e [<-|[]]. reflexivity. }
  split; [exact Hwf|]. split; [exact Hd|].
  exact (propagate_unfed dangling_network 2 Hwf Hd).
Defined.

(** ** Degrees and structural differentiation *)

Lemma degree_distribution_incident (self : CognitiveNetwork) :
  Dict.wf (nodes self) ->
  get_degree_distribution self = incident_degree_distribution self.
Proof.
  intros Hwf. unfold get_degree_distribution, incident_degree_distribution.
  rewrite degree_outer_loop; [|exact Hwf|intros k _ []].
  simpl. apply values_degree_entries.
Qed.

Lemma isum_fold_right (l : list Z) : isum l = fold_right Z.add 0%Z l.
Proof.
  unfold isum.
  enough (E : forall a, fold_left Z.add l a = (a + fold_right Z.add 0 l)%Z) by (rewrite E; lia).
  induction l as [|x l IH]; simpl; intros a; [lia|]. rewrite IH. lia.
Qed.

Lemma incident_count_range (node_id : string) (es : list (string * string)) :
  (0 <= incident_count node_id es <= Z.of_nat (List.length es))%Z.
Proof.
  unfold incident_count. pose proof (filter_length_le (incident node_id) es). lia.
Qed.

(** A list of distinct identifiers holds at most two endpoints of an edge. *)
Lemma endpoints_among (e : string * string) (ids : list string) :
  NoDup ids ->
  (fold_right Z.add 0 (map (fun id => if incident id e then 1 else 0) ids) <= 2)%Z.
Proof.
  intros Hnd.
  assert (Hlen : (List.length (filter (fun id => incident id e) ids) <= 2)%nat).
  { change 2%nat with (List.length [fst e; snd e]).
    apply NoDup_incl_length; [now apply NoDup_filter|].
    intros id Hin. apply filter_In in Hin. destruct Hin as [_ Hinc].
    unfold incident in Hinc. apply orb_prop in Hinc.
    destruct Hinc as [E|E]; apply String.eqb_eq in E; subst; simpl; auto. }
  enough (E : fold_right Z.add 0%Z (map (fun id => if incident id e then 1%Z else 0%Z) ids) =
              Z.of_nat (List.length (filter (fun id => incident id e) ids))) by lia.
  clear. induction ids as [|id ids IH]; simpl; [reflexivity|].
  rewrite IH. destruct (incident id e); simpl List.length; lia.
Qed.

Lemma incident_count_total (es : list (string * string)) (ids : list string) :
  NoDup ids ->
  (fold_right Z.add 0 (map (fun id => incident_count id es) ids) <=
   2 * Z.of_nat (List.length es))%Z.
Proof.
  intros Hnd. induction es as [|e es IH].
  - simpl. induction ids as [|id ids IHi]; simpl; [lia|].
    inversion Hnd; subst. unfold incident_count at 1. simpl. apply IHi. assumption.
  - pose proof (endpoints_among e ids Hnd) as He.
    enough (E : fold_right Z.add 0%Z (map (fun id => incident_count id (e :: es)) ids) =
                (fold_right Z.add 0 (map (fun id => if incident id e then 1 else 0) ids) +
                 fold_right Z.add 0 (map (fun id => incident_count id es) ids))%Z).
    { rewrite E. simpl List.length. lia. }
    clear. induction ids as [|id ids IHi]; simpl; [reflexivity|].
    rewrite IHi, incident_count_cons. lia.
Qed.

Lemma sum_filter_positive (l : list Z) :
  Forall (fun c => (0 <= c)%Z) l ->
  fold_right Z.add 0%Z (filter (fun c => (0 <? c)%Z) l) = fold_right Z.add 0%Z l.
Proof.
  induction 1 as [|c l Hc _ IH]; simpl; [reflexivity|].
  destruct (Z.ltb_spec 0 c); simpl; lia.
Qed.

(** X11: every entry of [get_degree_distribution] is at least 1 and at
    most the number of edges; there are at most as many entries as nodes;
    the entries add up to at most twice the number of edges; a network
    without edges gives the empty list. *)
Theorem degree_distribution_bounds (self : CognitiveNetwork) :
  Dict.wf (nodes self) ->
  Forall (fun d => (1 <= d <= Z.of_nat (List.length (edges self)))%Z)
         (get_degree_distribution self) /\
  (List.length (get_degree_distribution self) <= List.length (nodes self))%nat /\
  (isum (get_degree_distribution self) <= 2 * Z.of_nat (List.length (edges self)))%Z /\
  (edges self = [] -> get_degree_distribution self = []).
Proof.
  intros Hwf. rewrite degree_distribution_incident by assumption.
  unfold incident_degree_distribution.
  assert (Hlen : List.length (Dict.keys (edges self)) = List.length (edges self))
    by apply length_map.
  split; [|split; [|split]].
  - apply Forall_forall. intros d Hin. apply filter_In in Hin. destruct Hin as [Hin Hpos].
    apply in_map_iff in Hin. destruct Hin as (id & <- & _).
    pose proof (incident_count_range id (Dict.keys (edges self))).
    apply Z.ltb_lt in Hpos. lia.
  - etransitivity; [apply filter_length_le|]. unfold Dict.keys. now rewrite !length_map.
  - rewrite isum_fold_right, sum_filter_positive.
    + rewrite <- Hlen. now apply incident_count_total.
    + apply Forall_map. apply Forall_forall. intros id _. apply incident_count_range.
  - intros He. rewrite He. simpl.
    induction (Dict.keys (nodes self)) as [|id ids IH]; simpl; [reflexivity|exact IH].
Qed.

Lemma degree_distribution_bounds_witness :
  Dict.wf (nodes hub_network) /\
  (isum (get_degree_distribution hub_network) <= 2 * Z.of_nat (List.length (edges hub_network)))%Z.
Proof.
  assert (Hwf : Dict.wf (nodes hub_network)) by wf_dec.
  split; [exact Hwf|].
  destruct (degree_distribution_bounds hub_network Hwf) as (_ & _ & Hsum & _).
  exact Hsum.
Defined.

Lemma degrees_at_least_one (self : CognitiveNetwork) :
  Dict.wf (nodes self) -> Forall (fun d => (1 <= d)%Z) (get_degree_distribution self).
Proof.
  intros Hwf. rewrite degree_distribution_incident by assumption.
  apply Forall_forall. intros d Hin. apply filter_In in Hin.
  destruct Hin as [_ Hpos]. apply Z.ltb_lt in Hpos. lia.
Qed.

Lemma sum_at_least_length (l : list Z) :
  Forall (fun d => (1 <= d)%Z) l -> (Z.of_nat (List.length l) <= isum l)%Z.
Proof.
  rewrite isum_fold_right. induction 1 as [|d l Hd _ IH]; simpl List.length; simpl fold_right; lia.
Qed.

Lemma imax_ge_head (x : Z) (l : list Z) : (x <= imax (x :: l))%Z.
Proof.
  simpl. revert x. induction l as [|y l IH]; intros x; simpl; [lia|].
  destruct (Z.gtb_spec y x); [|apply IH]. etransitivity; [|apply IH]. lia.
Qed.

(** X12: [compute_structural_differentiation] always lies in [0, 1]; it
    is 0 for a network without edges; and whenever some node has an
    incident edge the average degree is at least 1, so the guard against
    a zero average is never the branch taken. *)
Theorem structural_differentiation_range (network : CognitiveNetwork) :
  Dict.wf (nodes network) ->
  0 <= compute_structural_differentiation network <= 1 /\
  (edges network = [] -> compute_structural_differentiation network = 0) /\
  (get_degree_distribution network <> [] ->
   1 <= IZR (isum (get_degree_distribution network)) /
        IZR (Z.of_nat (List.length (get_degree_distribution network))) /\
   Float.eqb (IZR (isum (get_degree_distribution network)) /
              IZR (Z.of_nat (List.length (get_degree_distribution network)))) 0 = false).
Proof.
  intros Hwf.
  pose proof (degrees_at_least_one network Hwf) as Hpos.
  assert (Havg : get_degree_distribution network <> [] ->
                 1 <= IZR (isum (get_degree_distribution network)) /
                      IZR (Z.of_nat (List.length (get_degree_distribution network)))).
  { intros Hne. pose proof (sum_at_least_length _ Hpos) as Hsum.
    assert (Hlen : (0 < Z.of_nat (List.length (get_degree_distribution network)))%Z).
    { destruct (get_degree_distribution network); [congruence|simpl List.length; lia]. }
    apply IZR_lt in Hlen. apply IZR_le in Hsum.
    apply Rmult_le_reg_r with (r := IZR (Z.of_nat (List.length (get_degree_distribution network))));
      [exact Hlen|].
    unfold Rdiv. rewrite Rmult_assoc, Rinv_l by lra. lra. }
  split; [|split].
  - unfold compute_structural_differentiation.
    destruct (get_degree_distribution network) as [|d ds] eqn:E; [lra|].
    assert (Hne : d :: ds <> []) by discriminate.
    specialize (Havg Hne).
    set (len := IZR (Z.of_nat (List.length (d :: ds)))) in *.
    set (avg := IZR (isum (d :: ds)) / len) in *.
    destruct (Float.eqb avg 0); [lra|].
    rewrite !FloatFacts.min_Rmin. split; [|apply Rmin_l].
    assert (Hlen : 1 <= len).
    { unfold len. apply IZR_le. simpl List.length. lia. }
    assert (Hcv : 0 <= sqrt (fsum (map (fun x => (IZR x - avg) ^ 2) (d :: ds)) / len) / avg).
    { unfold Rdiv at 1. apply Rmult_le_pos; [apply sqrt_pos|].
      left. apply Rinv_0_lt_compat. lra. }
    assert (Hmax : 0 <= IZR (imax (d :: ds)) / (len * 0.3)).
    { unfold Rdiv. apply Rmult_le_pos.
      - apply IZR_le. pose proof (imax_ge_head d ds). inversion Hpos; subst. lia.
      - left. apply Rinv_0_lt_compat. lra. }
    apply Rmin_glb; [lra|].
    assert (Hhub : 0 <= Rmin 1 (IZR (imax (d :: ds)) / (len * 0.3)))
      by (apply Rmin_glb; lra).
    lra.
  - intros He. unfold compute_structural_differentiation.
    assert (Hd : get_degree_distribution network = []).
    { unfold get_degree_distribution. rewrite He. simpl.
      induction (Dict.keys (nodes network)) as [|id ids IH]; simpl; [reflexivity|exact IH]. }
    now rewrite Hd.
  - intros Hne. specialize (Havg Hne). split; [exact Havg|].
    unfold Float.eqb. destruct (Req_dec_T _ 0) as [E0|_]; [lra|reflexivity].
Qed.

Lemma structural_differentiation_range_witness :
  Dict.wf (nodes hub_network) /\
  0 <= compute_structural_differentiation hub_network <= 1.
Proof.
  assert (Hwf : Dict.wf (nodes hub_network)) by wf_dec.
  split; [exact Hwf|].
  destruct (structural_differentiation_range hub_network Hwf) as (Hrange & _).
  exact Hrange.
Defined.

(** ** Emergence detection *)

(** The result of [detect] is the concatenation of what each of its four
    checks emits. *)
Lemma detect_parts (self : EmergenceDetector) (network : CognitiveNetwork)
  (memory : MemoryModule) (causality : CausalityEngine) :
  exists hub,
    (hub = [] \/
     exists x, hub = [{| Emergence.type := "structural_hub"; Emergence.strength := x |}]) /\
    fst (detect self network memory causality) =
      hub ++
      (if Float.gtb (current_density causality) 0.2
       then [{| Emergence.type := "causal_coherence";
                Emergence.strength := current_density causality |}]
       else []) ++
      (if (Z.of_nat (List.length (memories memory)) >? 5)%Z
       then [{| Emergence.type := "memory_persistence";
                Emergence.strength := IZR (Z.of_nat (List.length (memories memory))) / 10 |}]
       else []) ++
      (if (Z.of_nat (List.length (proto_language memory)) >? 0)%Z
       then [{| Emergence.type := "proto_language";
                Emergence.strength :=
                  IZR (Z.of_nat (List.length (proto_language memory))) / 5 |}]
       else []).
Proof.
  unfold detect. cbn [fst].
  match goal with
  | |- context [match get_degree_distribution network with [] => [] | _ :: _ => ?b end] =>
      set (hub := match get_degree_distribution network with [] => [] | _ :: _ => b end)
  end.
  exists hub. split.
  - subst hub. destruct (get_degree_distribution network); [now left|].
    match goal with |- context [if ?c then _ else _] => destruct c end;
      [right; eexists; reflexivity|now left].
  - destruct (Float.gtb (current_density causality) 0.2),
      (Z.of_nat (List.length (memories memory)) >? 5)%Z,
      (Z.of_nat (List.length (proto_language memory)) >? 0)%Z;
      rewrite ?app_nil_r, <- ?app_assoc; reflexivity.
Qed.

(** X13: [detect] returns at most four records, with distinct types in
    the fixed order of its checks; the last three checks decide on their
    own: causal_coherence is there exactly when the density exceeds 0.2,
    memory_persistence exactly when more than five keys are stored,
    proto_language exactly when the pattern list is not empty; the
    history gets one new entry holding the result and its length, also
    when the result is empty. *)
Theorem detect_shape (self : EmergenceDetector) (network : CognitiveNetwork)
  (memory : MemoryModule) (causality : CausalityEngine) :
  let found := fst (detect self network memory causality) in
  let types := map Emergence.type found in
  subseq types emergence_types /\
  (List.length found <= 4)%nat /\
  (In "causal_coherence" types <-> current_density causality > 0.2) /\
  (In "memory_persistence" types <-> (5 < List.length (memories memory))%nat) /\
  (In "proto_language" types <-> proto_language memory <> []) /\
  detection_history (snd (detect self network memory causality)) =
    detection_history self ++
    [{| emergences := found; count := Z.of_nat (List.length found) |}].
Proof.
  cbv zeta.
  enough (H5 :
    subseq (map Emergence.type (fst (detect self network memory causality))) emergence_types /\
    (List.length (fst (detect self network memory causality)) <= 4)%nat /\
    (In "causal_coherence" (map Emergence.type (fst (detect self network memory causality))) <->
     current_density causality > 0.2) /\
    (In "memory_persistence" (map Emergence.type (fst (detect self network memory causality))) <->
     (5 < List.length (memories memory))%nat) /\
    (In "proto_language" (map Emergence.type (fst (detect self network memory causality))) <->
     proto_language memory <> [])).
  { destruct H5 as (h1 & h2 & h3 & h4 & h5).
    exact (conj h1 (conj h2 (conj h3 (conj h4 (conj h5 eq_refl))))). }
  destruct (detect_parts self network memory causality) as (hub & Hhub & ->).
  assert (Hproto : (Z.of_nat (List.length (proto_language memory)) >? 0)%Z = true <->
                   proto_language memory <> []).
  { destruct (proto_language memory); simpl List.length; split; intros; try congruence.
    - discriminate.
    - apply Z.gtb_lt. lia. }
  assert (Hmem : (Z.of_nat (List.length (memories memory)) >? 5)%Z = true <->
                 (5 < List.length (memories memory))%nat).
  { rewrite Z.gtb_lt. lia. }
  assert (Hcoh : Float.gtb (current_density causality) 0.2 = true <->
                 current_density causality > 0.2) by apply FloatFacts.gtb_true.
  split; [|split; [|split; [|split]]].
  - destruct Hhub as [->|[x ->]];
      destruct (Float.gtb (current_density causality) 0.2),
        (Z.of_nat (List.length (memories memory)) >? 5)%Z,
        (Z.of_nat (List.length (proto_language memory)) >? 0)%Z; simpl;
      repeat first [apply subseq_keep | apply subseq_skip | apply subseq_nil].
  - destruct Hhub as [->|[x ->]];
      destruct (Float.gtb (current_density causality) 0.2),
        (Z.of_nat (List.length (memories memory)) >? 5)%Z,
        (Z.of_nat (List.length (proto_language memory)) >? 0)%Z; simpl; lia.
  - rewrite <- Hcoh. destruct Hhub as [->|[x ->]];
      destruct (Float.gtb (current_density causality) 0.2),
        (Z.of_nat (List.length (memories memory)) >? 5)%Z,
        (Z.of_nat (List.length (proto_language memory)) >? 0)%Z; simpl;
      intuition (discriminate || auto).
  - rewrite <- Hmem. destruct Hhub as [->|[x ->]];
      destruct (Float.gtb (current_density causality) 0.2),
        (Z.of_nat (List.length (memories memory)) >? 5)%Z,
        (Z.of_nat (List.length (proto_language memory)) >? 0)%Z; simpl;
      intuition (discriminate || auto).
  - rewrite <- Hproto. destruct Hhub as [->|[x ->]];
      destruct (Float.gtb (current_density causality) 0.2),
        (Z.of_nat (List.length (memories memory)) >? 5)%Z,
        (Z.of_nat (List.length (proto_language memory)) >? 0)%Z; simpl;
      intuition (discriminate || auto).
Qed.

Lemma detect_hub_condition (self : EmergenceDetector) (network : CognitiveNetwork)
  (memory : MemoryModule) (causality : CausalityEngine) :
  In "structural_hub" (map Emergence.type (fst (detect self network memory causality))) ->
  get_degree_distribution network <> [] /\
  IZR (imax (get_degree_distribution network)) >
    IZR (isum (get_degree_distribution network)) /
    IZR (Z.of_nat (List.length (get_degree_distribution network))) * 2.
Proof.
  unfold detect. cbn [fst].
  destruct (get_degree_distribution network) as [|d ds].
  - destruct (Float.gtb (current_density causality) 0.2),
      (Z.of_nat (List.length (memories memory)) >? 5)%Z,
      (Z.of_nat (List.length (proto_language memory)) >? 0)%Z; simpl;
      intuition discriminate.
  - destruct (Float.gtb (IZR (imax (d :: ds)))
                (IZR (isum (d :: ds)) / IZR (Z.of_nat (List.length (d :: ds))) * 2)) eqn:C.
    + intros _. apply FloatFacts.gtb_true in C. split; [discriminate|exact C].
    + destruct (Float.gtb (current_density causality) 0.2),
        (Z.of_nat (List.length (memories memory)) >? 5)%Z,
        (Z.of_nat (List.length (proto_language memory)) >? 0)%Z; simpl;
        intuition discriminate.
Qed.

Lemma imax_In (x : Z) (l : list Z) : In (imax (x :: l)) (x :: l).
Proof.
  simpl. revert x. induction l as [|y l IH]; intros x; simpl; [now left|].
  destruct (y >? x)%Z.
  - destruct (IH y) as [E|Hin]; [right; left; exact E|right; right; exact Hin].
  - destruct (IH x) as [E|Hin]; [left; exact E|right; right; exact Hin].
Qed.

Lemma sum_with_member (m : Z) (l : list Z) :
  Forall (fun d => (1 <= d)%Z) l -> In m l ->
  (m + Z.of_nat (List.length l) - 1 <= isum l)%Z.
Proof.
  rewrite isum_fold_right. induction 1 as [|d l Hd Hall IH]; intros Hin; [contradiction|].
  simpl List.length. simpl fold_right. destruct Hin as [->|Hin].
  - pose proof (sum_at_least_length l Hall) as Hs. rewrite isum_fold_right in Hs. lia.
  - specialize (IH Hin). lia.
Qed.

(** X14: [detect] reports a structural hub only when at least three nodes
    have an incident edge: with one or two such nodes the largest degree
    cannot exceed twice the average. *)
Theorem structural_hub_needs_three (self : EmergenceDetector) (network : CognitiveNetwork)
  (memory : MemoryModule) (causality : CausalityEngine) :
  Dict.wf (nodes network) ->
  In "structural_hub" (map Emergence.type (fst (detect self network memory causality))) ->
  (3 <= List.length (get_degree_distribution network))%nat.
Proof.
  intros Hwf Hin. apply detect_hub_condition in Hin. destruct Hin as [Hne Hgt].
  pose proof (degrees_at_least_one network Hwf) as Hpos.
  destruct (get_degree_distribution network) as [|d ds]; [congruence|].
  pose proof (sum_with_member _ _ Hpos (imax_In d ds)) as Hsum.
  pose proof (imax_ge_head d ds) as Hhead.
  assert (Hd : (1 <= d)%Z) by (inversion Hpos; assumption).
  set (m := imax (d :: ds)) in *. set (t := isum (d :: ds)) in *.
  destruct ds as [|d2 [|d3 ds]]; simpl List.length in *; [| |lia]; exfalso.
  - assert (Hz : (m <= t)%Z) by lia.
    apply IZR_le in Hz. apply IZR_le in Hhead. apply IZR_le in Hd.
    simpl in Hgt. lra.
  - assert (Hz : (m + 1 <= t)%Z) by lia.
    apply IZR_le in Hz. rewrite plus_IZR in Hz.
    apply IZR_le in Hhead. apply IZR_le in Hd.
    simpl in Hgt. lra.
Qed.

Lemma structural_hub_needs_three_witness :
  Dict.wf (nodes hub_network) /\
  In "structural_hub"
     (map Emergence.type (fst (detect new_detector hub_network (new_memory 0.05) new_engine))) /\
  (3 <= List.length (get_degree_distribution hub_network))%nat.
Proof.
  assert (Hwf : Dict.wf (nodes hub_network)) by wf_dec.
  assert (Hin : In "structural_hub"
     (map Emergence.type (fst (detect new_detector hub_network (new_memory 0.05) new_engine)))).
  { unfold detect. cbn [fst]. rewrite hub_degrees.
    cbv [List.length isum imax fold_left Z.gtb Z.compare Pos.compare Pos.compare_cont
         Z.add Pos.add Pos.succ Z.of_nat Pos.of_succ_nat].
    assert (C : Float.gtb 9 (18 / 10 * 2) = true) by (apply FloatFacts.gtb_true; lra).
    assert (C2 : Float.gtb (current_density new_engine) 0.2 = false)
      by (apply FloatFacts.gtb_false; simpl; lra).
    rewrite C, C2. simpl. now left. }
  split; [exact Hwf|]. split; [exact Hin|].
  exact (structural_hub_needs_three new_detector hub_network (new_memory 0.05) new_engine Hwf Hin).
Defined.

(** X15: in a detection made after a [register_event], a causal_coherence
    record carries the engine's density as its strength, a number above
    0.2 and at most 1. *)
Theorem detect_coherence_strength (self : EmergenceDetector) (network : CognitiveNetwork)
  (memory : MemoryModule) (c0 : CausalityEngine) (src dst : string) (s : R)
  (e : Emergence.t) :
  In e (fst (detect self network memory (register_event c0 src dst s))) ->
  Emergence.type e = "causal_coherence" ->
  Emergence.strength e = current_density (register_event c0 src dst s) /\
  0.2 < Emergence.strength e <= 1.
Proof.
  intros Hin Hty.
  destruct (detect_parts self network memory (register_event c0 src dst s))
    as (hub & Hhub & E).
  rewrite E in Hin. clear E.
  assert (Hle : current_density (register_event c0 src dst s) <= 1).
  { rewrite register_event_spec. simpl. apply spec_density_le_1. }
  apply in_app_or in Hin. destruct Hin as [Hin|Hin].
  { destruct Hhub as [->|[x ->]]; [contradiction|].
    destruct Hin as [<-|[]]. discriminate Hty. }
  apply in_app_or in Hin. destruct Hin as [Hin|Hin].
  { destruct (Float.gtb (current_density (register_event c0 src dst s)) 0.2) eqn:C;
      [|contradiction].
    destruct Hin as [<-|[]]. simpl. apply FloatFacts.gtb_true in C.
    split; [reflexivity|lra]. }
  apply in_app_or in Hin. destruct Hin as [Hin|Hin].
  { destruct (Z.of_nat (List.length (memories memory)) >? 5)%Z; [|contradiction].
    destruct Hin as [<-|[]]. discriminate Hty. }
  destruct (Z.of_nat (List.length (proto_language memory)) >? 0)%Z; [|contradiction].
  destruct Hin as [<-|[]]. discriminate Hty.
Qed.

Lemma detect_coherence_strength_witness :
  let c := register_event new_engine "a" "b" 0.5 in
  let e := {| Emergence.type := "causal_coherence"; Emergence.strength := current_density c |} in
  In e (fst (detect new_detector empty_network (new_memory 0.05) c)) /\
  Emergence.type e = "causal_coherence" /\
  0.2 < Emergence.strength e <= 1.
Proof.
  cbv zeta.
  set (c := register_event new_engine "a" "b" 0.5).
  assert (Hd : current_density c = 0.5).
  { unfold c. rewrite register_event_spec. simpl.
    unfold spec_density, most_recent, ev_strength. simpl.
    rewrite Rmin_right by lra. lra. }
  assert (Hin : In {| Emergence.type := "causal_coherence"; Emergence.strength := current_density c |}
                   (fst (detect new_detector empty_network (new_memory 0.05) c))).
  { assert (C : Float.gtb (current_density c) 0.2 = true)
      by (apply FloatFacts.gtb_true; rewrite Hd; lra).
    revert C. generalize c. intros c' C.
    unfold detect. cbn [fst]. simpl. rewrite C. now left. }
  split; [exact Hin|]. split; [reflexivity|].
  destruct (detect_coherence_strength new_detector empty_network (new_memory 0.05)
              new_engine "a" "b" 0.5 _ Hin eq_refl) as [_ Hrange].
  exact Hrange.
Defined.

(** ** The prediction engine: classes, verdicts, batches, summary *)

(** X16: what a class tells about the input: fast_propagation only for
    S > 0.6, M < 0.05 and D >= 0.5; slow_memory only for M > 0.08 outside
    rule 1; dense_dynamical only for S < 0.3, D > 0.5 and M <= 0.08;
    grammar_structural either by rule 1 or when no rule matches. *)
Theorem classify_inverse (S D M : R) :
  let cls := classify_universality_class S D M in
  (cls = FAST_PROPAGATION -> S > 0.6 /\ M < 0.05 /\ D >= 0.5) /\
  (cls = SLOW_MEMORY -> M > 0.08 /\ (S <= 0.5 \/ D >= 0.5)) /\
  (cls = DENSE_DYNAMICAL -> S < 0.3 /\ D > 0.5 /\ M <= 0.08) /\
  (cls = GRAMMAR_STRUCTURAL ->
   (S > 0.5 /\ D < 0.5) \/
   (M <= 0.08 /\ (S <= 0.6 \/ M >= 0.05) /\ (S >= 0.3 \/ D <= 0.5))).
Proof.
  cbv zeta. unfold classify_universality_class.
  split; [|split; [|split]]; float_cases; simpl; intros Hc; try discriminate Hc; lra.
Qed.

Lemma classify_inverse_witness :
  classify_universality_class 0.7 0.6 0.03 = FAST_PROPAGATION /\
  0.7 > 0.6 /\ 0.03 < 0.05 /\ 0.6 >= 0.5.
Proof.
  assert (Hc : classify_universality_class 0.7 0.6 0.03 = FAST_PROPAGATION).
  { unfold classify_universality_class. float_cases; simpl; try reflexivity; exfalso; lra. }
  split; [exact Hc|].
  destruct (classify_inverse 0.7 0.6 0.03) as (Hfast & _).
  exact (Hfast Hc).
Defined.

(** X17: whatever the parameters, a capacity of at least 0.010 gives
    phi = 1 and a capacity below 0.003 gives phi = 0, since every class
    threshold lies between the two; phi is 0 or 1; and a cognitive verdict
    always comes with the law "Observation Independence" active. *)
Theorem predict_verdict_bounds (self : MetaLawSynthesis) (params : Params) :
  let st := fst (predict self params) in
  0.003 <= State.threshold st <= 0.010 /\
  (State.capacity st >= 0.010 -> State.phi st = 1%Z) /\
  (State.capacity st < 0.003 -> State.phi st = 0%Z) /\
  (State.phi st = 1%Z \/ State.phi st = 0%Z) /\
  (State.phi st = 1%Z -> In "Observation Independence" (State.active_laws st)).
Proof.
  cbv zeta. destruct (predict_any self params) as (Hc & _ & Ht & Hp & Hl & _).
  set (st := fst (predict self params)) in *.
  assert (Hth : 0.003 <= State.threshold st <= 0.010).
  { rewrite Ht. destruct (classify_universality_class _ _ _); simpl; lra. }
  split; [exact Hth|]. rewrite Hp.
  destruct (Float.geb (State.capacity st) (State.threshold st)) eqn:G.
  - apply FloatFacts.geb_true in G.
    split; [reflexivity|]. split; [intros; lra|]. split; [now left|].
    intros _. rewrite Hl, get_active_laws_unfold.
    assert (C : Float.gtb (State.S st * State.D st * State.M st) 0.001 = true).
    { apply FloatFacts.gtb_true. rewrite <- Hc. lra. }
    rewrite C. apply in_or_app. right. now left.
  - apply FloatFacts.geb_false in G.
    split; [intros; lra|]. split; [reflexivity|]. split; [now right|discriminate].
Qed.

Lemma predict_verdict_bounds_witness :
  State.capacity (fst (predict new_synthesis (params_SDM 0.85 0.70 0.60))) >= 0.010 /\
  State.phi (fst (predict new_synthesis (params_SDM 0.85 0.70 0.60))) = 1%Z.
Proof.
  assert (Hcap : State.capacity (fst (predict new_synthesis (params_SDM 0.85 0.70 0.60)))
                 >= 0.010).
  { simpl. unfold compute_capacity. lra. }
  split; [exact Hcap|].
  destruct (predict_verdict_bounds new_synthesis (params_SDM 0.85 0.70 0.60))
    as (_ & Hhigh & _).
  exact (Hhigh Hcap).
Defined.

(** The record [predict] returns does not depend on the history. *)
Lemma predict_state_any_history (self self' : MetaLawSynthesis) (params : Params) :
  fst (predict self params) = fst (predict self' params).
Proof. reflexivity. Qed.

Lemma batch_predict_spec (param_list : list Params) (self : MetaLawSynthesis) :
  batch_predict self param_list =
    (map (fun params => fst (predict new_synthesis params)) param_list,
     {| predictions :=
          predictions self ++ map (fun params => fst (predict new_synthesis params)) param_list |}).
Proof.
  revert self. induction param_list as [|params rest IH]; intros self.
  - simpl. rewrite app_nil_r. now destruct self.
  - cbn [batch_predict].
    destruct (predict self params) as [state self'] eqn:E.
    assert (Hs : state = fst (predict new_synthesis params)).
    { change state with (fst (state, self')). rewrite <- E. reflexivity. }
    assert (Hh : predictions self' = predictions self ++ [state]).
    { change self' with (snd (state, self')). rewrite <- E. subst state. reflexivity. }
    rewrite IH, Hh, <- app_assoc, Hs. reflexivity.
Qed.

(** X18: [batch_predict] returns one record per parameter set, in order,
    each the record a single [predict] gives whatever the history; the
    history grows by exactly these records, appended in order, so a batch
    over [ps ++ qs] is a batch over [ps] followed by one over [qs]. *)
Theorem batch_predict_history (self : MetaLawSynthesis) (ps qs : list Params) :
  let r := batch_predict self (ps ++ qs) in
  fst r = map (fun params => fst (predict self params)) (ps ++ qs) /\
  List.length (fst r) = (List.length ps + List.length qs)%nat /\
  predictions (snd r) = predictions self ++ fst r /\
  fst r = fst (batch_predict self ps) ++ fst (batch_predict (snd (batch_predict self ps)) qs) /\
  snd r = snd (batch_predict (snd (batch_predict self ps)) qs).
Proof.
  cbv zeta. rewrite !batch_predict_spec. cbn [fst snd predictions].
  split; [reflexivity|]. split; [now rewrite length_map, length_app|].
  split; [reflexivity|]. split; [apply map_app|].
  now rewrite map_app, app_assoc.
Qed.

Lemma isum_ones {A : Type} (l : list A) : isum (map (fun _ => 1%Z) l) = Z.of_nat (List.length l).
Proof.
  rewrite isum_fold_right. induction l as [|x l IH]; [reflexivity|].
  cbn [map fold_right List.length]. rewrite IH. lia.
Qed.

(** X19: in every summary total = cognitive + non_cognitive, cognitive is
    the number of records with phi = 1 and lies between 0 and total; the
    rate is left out exactly when there is no prediction, and otherwise it
    is cognitive / total, a number in [0, 1]. *)
Theorem get_summary_counts (self : MetaLawSynthesis) :
  let s := get_summary self in
  total s = Z.of_nat (List.length (predictions self)) /\
  cognitive s =
    Z.of_nat (List.length (filter (fun p => (State.phi p =? 1)%Z) (predictions self))) /\
  (0 <= cognitive s <= total s)%Z /\
  total s = (cognitive s + non_cognitive s)%Z /\
  (cognitive_rate s = None <-> predictions self = []) /\
  (forall r, cognitive_rate s = Some r ->
             r = IZR (cognitive s) / IZR (total s) /\ 0 <= r <= 1).
Proof.
  cbv zeta. unfold get_summary.
  destruct (predictions self) as [|p ps] eqn:E.
  - simpl. repeat split; try lia; try discriminate; auto.
  - rewrite <- E. cbn [total cognitive non_cognitive cognitive_rate].
    rewrite isum_ones.
    pose proof (filter_length_le (fun p => (State.phi p =? 1)%Z) (predictions self)) as Hle.
    assert (Hpos : (0 < Z.of_nat (List.length (predictions self)))%Z).
    { rewrite E. simpl List.length. lia. }
    split; [reflexivity|]. split; [reflexivity|]. split; [lia|]. split; [lia|].
    split; [split; intros Hn; [discriminate Hn|rewrite E in Hn; discriminate Hn]|].
    intros r [= <-]. split; [reflexivity|].
    set (c := Z.of_nat (List.length (filter _ (predictions self)))) in *.
    set (t := Z.of_nat (List.length (predictions self))) in *.
    assert (Hc0 : 0 <= IZR c) by (apply IZR_le; lia).
    assert (Hct : IZR c <= IZR t) by (apply IZR_le; lia).
    assert (Ht : 0 < IZR t) by (apply IZR_lt; lia).
    split.
    + unfold Rdiv. apply Rmult_le_pos; [exact Hc0|]. left. now apply Rinv_0_lt_compat.
    + apply Rmult_le_reg_r with (r := IZR t); [exact Ht|].
      unfold Rdiv. rewrite Rmult_assoc, Rinv_l by lra. lra.
Qed.

Lemma phi_of_predict (params : Params) :
  State.phi (fst (predict new_synthesis params)) = 1%Z \/
  State.phi (fst (predict new_synthesis params)) = 0%Z.
Proof.
  simpl. match goal with |- context [if ?c then _ else _] => destruct c end; auto.
Qed.

Lemma count_phi_split (l : list CognitiveState) :
  Forall (fun p => State.phi p = 1%Z \/ State.phi p = 0%Z) l ->
  (List.length (filter (fun p => (State.phi p =? 1)%Z) l) +
   List.length (filter (fun p => (State.phi p =? 0)%Z) l) = List.length l)%nat.
Proof.
  induction 1 as [|p l Hp _ IH]; simpl; [reflexivity|].
  destruct Hp as [-> | ->]; simpl; lia.
Qed.

(** X20: the summary after a batch on a fresh engine counts one record
    per parameter set, and its non_cognitive (computed as total minus
    cognitive) is the number of returned records with phi = 0. *)
Theorem summary_after_batch (param_list : list Params) :
  let r := batch_predict new_synthesis param_list in
  let s := get_summary (snd r) in
  total s = Z.of_nat (List.length param_list) /\
  cognitive s = Z.of_nat (List.length (filter (fun p => (State.phi p =? 1)%Z) (fst r))) /\
  non_cognitive s = Z.of_nat (List.length (filter (fun p => (State.phi p =? 0)%Z) (fst r))).
Proof.
  cbv zeta. rewrite batch_predict_spec. cbn [fst snd].
  change (predictions new_synthesis) with (@nil CognitiveState). rewrite app_nil_l.
  assert (Hlen : List.length (map (fun params => fst (predict new_synthesis params)) param_list)
                 = List.length param_list) by apply length_map.
  assert (Hphi : Forall (fun p => State.phi p = 1%Z \/ State.phi p = 0%Z)
                        (map (fun params => fst (predict new_synthesis params)) param_list)).
  { apply Forall_map. apply Forall_forall. intros params _. apply phi_of_predict. }
  pose proof (count_phi_split _ Hphi) as Hsplit.
  revert Hlen Hsplit. clear Hphi.
  generalize (map (fun params => fst (predict new_synthesis params)) param_list).
  intros states Hlen Hsplit. destruct states as [|p ps].
  - simpl in *. repeat split; lia.
  - cbv beta iota zeta delta [get_summary predictions total cognitive non_cognitive].
    rewrite isum_ones. repeat split; lia.
Qed.

Lemma decay_keeps_persistence (memory memory' : MemoryModule) :
  decay memory = Some memory' ->
  persistence memory' = persistence memory /\ proto_language memory' = proto_language memory.
Proof.
  unfold decay. destruct (decay_scan _ _) as [[mems to_remove]|]; [|discriminate].
  destruct (decay_purge mems to_remove); [|discriminate].
  intros [= <-]. split; reflexivity.
Qed.

(** X21: a prediction from components reads the memory's persistence
    setting only: storing a trace or running [decay] does not change the
    record; and [predict] with a network in its parameters ignores an
    explicit S (or its alias) and gives the same record. *)
Theorem prediction_ignores_memory_contents (self : MetaLawSynthesis)
  (network : CognitiveNetwork) (memory memory' : MemoryModule)
  (causality : CausalityEngine) (key : string) (strength : R) (s alias : option R) :
  decay memory = Some memory' ->
  fst (predict_from_network self network memory' causality) =
    fst (predict_from_network self network memory causality) /\
  fst (predict_from_network self network (store memory key strength) causality) =
    fst (predict_from_network self network memory causality) /\
  fst (predict self {| p_S := s; p_structural_differentiation := alias;
                       p_D := Some (current_density causality); p_causal_density := None;
                       p_M := Some (persistence memory); p_memory_persistence := None;
                       p_network := Some network |}) =
    fst (predict_from_network self network memory causality).
Proof.
  intros Hd. apply decay_keeps_persistence in Hd. destruct Hd as [Hp _].
  split; [|split; reflexivity].
  unfold predict_from_network. now rewrite Hp.
Qed.

Lemma prediction_ignores_memory_contents_witness :
  decay demo_memory = Some (spec_decay demo_memory) /\
  fst (predict_from_network new_synthesis hub_network (spec_decay demo_memory) new_engine) =
    fst (predict_from_network new_synthesis hub_network demo_memory new_engine).
Proof.
  assert (Hd : decay demo_memory = Some (spec_decay demo_memory)).
  { apply decay_spec. wf_dec. }
  split; [exact Hd|].
  destruct (prediction_ignores_memory_contents new_synthesis hub_network demo_memory
              (spec_decay demo_memory) new_engine "k" 1 None None Hd) as (Hsame & _).
  exact Hsame.
Defined.

(** X22: the list of active laws has no duplicate and at most five
    names, and "Structural Morality" is never active without "Causal
    Time". *)
Theorem active_laws_relations (S D M : R) :
  NoDup (get_active_laws S D M) /\
  (List.length (get_active_laws S D M) <= 5)%nat /\
  (In "Structural Morality" (get_active_laws S D M) ->
   In "Causal Time" (get_active_laws S D M)).
Proof.
  rewrite get_active_laws_unfold.
  split; [|split].
  - float_cases; simpl; repeat constructor; simpl; intuition discriminate.
  - float_cases; simpl; lia.
  - float_cases; simpl; intros Hin; intuition (try discriminate; try lra).
Qed.

Lemma active_laws_relations_witness :
  In "Structural Morality" (get_active_laws 0.6 0.5 0.1) /\
  In "Causal Time" (get_active_laws 0.6 0.5 0.1).
Proof.
  assert (Hin : In "Structural Morality" (get_active_laws 0.6 0.5 0.1)).
  { rewrite get_active_laws_unfold. float_cases; simpl; auto 10; exfalso; lra. }
  split; [exact Hin|].
  destruct (active_laws_relations 0.6 0.5 0.1) as (_ & _ & Himp).
  exact (Himp Hin).
Defined.

(** ** Causality: the log, the window mean, the chain *)






Lemma causal_walk_links (evs : list Event) (n : nat) (current : string) (rest : list string) :
  causal_walk evs n current rest ->
  Forall (fun p => exists s, In (fst p, snd p, s) evs) (adjacent (current :: rest)).
Proof.
  induction 1 as [c|n c Hno|n c next rest Hlast Hw IH]; try constructor.
  - destruct Hlast as (i & s & Hi & _). exists s. simpl. eapply nth_error_In. exact Hi.
  - exact IH.
Qed.

Lemma causal_chain_loop_more (evs : list Event) (m k : nat) (current : string)
  (chain : list string) :
  exists more,
    causal_chain_loop (m + k) evs current chain =
      causal_chain_loop m evs current chain ++ more.
Proof.
  revert current chain. induction m as [|m IH]; intros current chain.
  - destruct (causal_chain_loop_walk evs k current chain) as (rest & Hrun & _).
    exists rest. exact Hrun.
  - cbn [Nat.add causal_chain_loop].
    destruct (next_nodes evs current) as [|d ds]; cbv zeta.
    + exists []. now rewrite app_nil_r.
    + apply IH.
Qed.

(** X25: every two neighbours of the chain [get_causal_chain] returns are
    source and destination of a logged event; with [max_depth] zero or
    negative, or with an empty log, the chain is just the start; and a
    larger [max_depth] only extends the chain at its end. *)
Theorem causal_chain_links (self : CausalityEngine) (start : string) (max_depth extra : Z) :
  let chain := get_causal_chain self start max_depth in
  Forall (fun p => exists s, In (fst p, snd p, s) (events self)) (adjacent chain) /\
  ((max_depth <= 0)%Z -> chain = [start]) /\
  (events self = [] -> chain = [start]) /\
  ((0 <= max_depth)%Z -> (0 <= extra)%Z ->
   exists more, get_causal_chain self start (max_depth + extra) = chain ++ more).
Proof.
  cbv zeta. unfold get_causal_chain.
  destruct (causal_chain_loop_walk (events self) (Z.to_nat max_depth) start [start])
    as (rest & Hrun & Hw).
  split; [|split; [|split]].
  - rewrite Hrun. simpl app. eapply causal_walk_links. exact Hw.
  - intros Hneg. replace (Z.to_nat max_depth) with 0%nat by lia. reflexivity.
  - intros He. rewrite He. destruct (Z.to_nat max_depth); reflexivity.
  - intros Hd He. rewrite Z2Nat.inj_add by assumption. apply causal_chain_loop_more.
Qed.

Lemma causal_chain_links_witness :
  (0 <= 2)%Z /\ (0 <= 3)%Z /\
  exists more,
    get_causal_chain {| events := demo_events; current_density := 0 |} "a" (2 + 3) =
      get_causal_chain {| events := demo_events; current_density := 0 |} "a" 2 ++ more.
Proof.
  assert (Hd : (0 <= 2)%Z) by lia. assert (He : (0 <= 3)%Z) by lia.
  split; [exact Hd|]. split; [exact He|].
  destruct (causal_chain_links {| events := demo_events; current_density := 0 |} "a" 2 3)
    as (_ & _ & _ & Hmore).
  exact (Hmore Hd He).
Defined.

(** ** Propagation leaves the structure alone *)

Lemma keys_iter_spec_step (n : nat) (self : CognitiveNetwork) :
  Dict.keys (nodes (Nat.iter n spec_step self)) = Dict.keys (nodes self).
Proof. induction n as [|n IH]; simpl Nat.iter; [reflexivity|]. now rewrite keys_spec_step. Qed.

Lemma degree_distribution_by_keys (self self' : CognitiveNetwork) :
  Dict.keys (nodes self') = Dict.keys (nodes self) ->
  edges self' = edges self ->
  get_degree_distribution self' = get_degree_distribution self.
Proof. unfold get_degree_distribution. intros -> ->. reflexivity. Qed.

(** X26: [propagate] never adds, removes or reorders a node and never
    touches an edge; so the degree distribution and the structural
    differentiation of the network are the same after any number of
    steps. *)
Theorem propagate_keeps_structure (self : CognitiveNetwork) (steps : Z) :
  Dict.wf (nodes self) ->
  exists self',
    propagate self steps = Some self' /\
    Dict.keys (nodes self') = Dict.keys (nodes self) /\
    Dict.wf (nodes self') /\
    edges self' = edges self /\
    get_degree_distribution self' = get_degree_distribution self /\
    compute_structural_differentiation self' = compute_structural_differentiation self.
Proof.
  intros Hwf. exists (Nat.iter (Z.to_nat steps) spec_step self).
  pose proof (keys_iter_spec_step (Z.to_nat steps) self) as Hk.
  pose proof (edges_iter_spec_step (Z.to_nat steps) self) as He.
  pose proof (degree_distribution_by_keys _ _ Hk He) as Hd.
  split; [now apply propagate_iter_spec|]. split; [exact Hk|].
  split; [unfold Dict.wf; now rewrite Hk|]. split; [exact He|]. split; [exact Hd|].
  unfold compute_structural_differentiation. now rewrite Hd.
Qed.

Lemma propagate_keeps_structure_witness :
  Dict.wf (nodes demo_network) /\
  exists self',
    propagate demo_network 4 = Some self' /\
    compute_structural_differentiation self' = compute_structural_differentiation demo_network.
Proof.
  assert (Hwf : Dict.wf (nodes demo_network)) by wf_dec.
  split; [exact Hwf|].
  destruct (propagate_keeps_structure demo_network 4 Hwf) as (self' & Hrun & _ & _ & _ & _ & Hs).
  exists self'. split; [exact Hrun|exact Hs].
Defined.
